(** * Credential and token lifecycle of the midterm-auth backend

    A shallow embedding of [backend/server.js] and
    [backend/middleware/authMiddleware.js]: the [users] table, the SQL
    statements the handlers issue, the Express handlers themselves, and the
    properties of the password, session-token and reset-token workflows.

    The third-party libraries ([bcrypt], [jsonwebtoken], [crypto]) are not
    part of the repository; the server is parameterised by them (class
    [Libraries]).  The clock ([Date.now()] and MySQL's [NOW()], taken to be
    one clock) and the random sources are inputs of each request.  String
    comparison in a [WHERE] clause is equality of strings. *)

From Stdlib Require Import ZArith List String Ascii Bool Lia.
From Stdlib Require Import Strings.Byte.
Import ListNotations.

Local Open Scope string_scope.
Local Open Scope Z_scope.

(* ================================================================= *)
(** ** JSON values, as far as the responses need them *)

#[warnings="-register-all"] Inductive json : Type :=
| JNull
| JNum (n : Z)
| JStr (s : string)
| JObj (fields : list (string * json)).

(** [delete obj.key] *)
Fixpoint delete_key (key : string) (fields : list (string * json))
  : list (string * json) :=
  match fields with
  | [] => []
  | (k, v) :: rest =>
      if String.eqb k key then delete_key key rest
      else (k, v) :: delete_key key rest
  end.

Fixpoint get_key (key : string) (fields : list (string * json)) : option json :=
  match fields with
  | [] => None
  | (k, v) :: rest => if String.eqb k key then Some v else get_key key rest
  end.


Definition opt_str (o : option string) : json :=
  match o with Some s => JStr s | None => JNull end.

Definition opt_num (o : option Z) : json :=
  match o with Some n => JNum n | None => JNull end.

(** An HTTP response: [res.status(code).json(body)]. *)
Record response : Type := mkResponse { status : Z; body : json }.

Definition message_response (code : Z) (msg : string) : response :=
  mkResponse code (JObj [("message", JStr msg)]).

(** [!x] on a request-body field: absent ([undefined]) or the empty string. *)
Definition falsy (field : option string) : bool :=
  match field with
  | None => true
  | Some s => String.eqb s ""
  end.

Definition field_value (field : option string) : string :=
  match field with Some s => s | None => "" end.

(* ================================================================= *)
(** ** The [users] table *)

(** One row of [CREATE TABLE users] (README, part 3).  Datetimes are
    milliseconds since the epoch. *)
Module User.
Record t : Type := mk {
  id : Z;
  email : string;
  password : string;
  name : option string;
  username : option string;
  onboarded : Z;
  image : option string;
  resetToken : option string;
  resetTokenExpiry : option Z;
  created_at : Z
}.

(** The row object [mysql2] hands to the handler. *)
Definition to_json (u : t) : list (string * json) :=
  [ ("id", JNum (id u));
    ("email", JStr (email u));
    ("password", JStr (password u));
    ("name", opt_str (name u));
    ("username", opt_str (username u));
    ("onboarded", JNum (onboarded u));
    ("image", opt_str (image u));
    ("resetToken", opt_str (resetToken u));
    ("resetTokenExpiry", opt_num (resetTokenExpiry u));
    ("created_at", JNum (created_at u)) ].
End User.

Definition table : Type := list User.t.

Definition opt_string_eqb (o : option string) (s : string) : bool :=
  match o with Some x => String.eqb x s | None => false end.

(** [SELECT * FROM users WHERE email = ?] *)
Definition select_by_email (e : string) (db : table) : list User.t :=
  filter (fun u => String.eqb (User.email u) e) db.

(** [SELECT * FROM users WHERE id = ?] *)
Definition select_by_id (i : Z) (db : table) : list User.t :=
  filter (fun u => Z.eqb (User.id u) i) db.

(** [SELECT * FROM users WHERE username = ? AND id != ?] *)
Definition select_by_username_excluding (n : string) (i : Z) (db : table)
  : list User.t :=
  filter (fun u => opt_string_eqb (User.username u) n
                   && negb (Z.eqb (User.id u) i)) db.

(** [resetToken = ? AND resetTokenExpiry > NOW()]; a comparison with NULL
    is not true. *)
Definition reset_row_matches (fingerprint : string) (now : Z) (u : User.t) : bool :=
  opt_string_eqb (User.resetToken u) fingerprint
  && match User.resetTokenExpiry u with
     | Some e => Z.ltb now e
     | None => false
     end.

(** [SELECT * FROM users WHERE resetToken = ? AND resetTokenExpiry > NOW()] *)
Definition select_by_reset_token (fingerprint : string) (now : Z) (db : table)
  : list User.t :=
  filter (reset_row_matches fingerprint now) db.

(* ----------------------------------------------------------------- *)
(** *** Statements that write *)

Inductive assignment : Type :=
| SetPassword (h : string)
| SetResetToken (tok : option string)
| SetResetTokenExpiry (e : option Z)
| SetName (n : string)
| SetUsername (n : string)
| SetOnboarded (b : Z).

Inductive stmt : Type :=
| INSERT (email password : string) (onboarded : Z)
| UPDATE (sets : list assignment) (uid : Z).

(** What a handler's [catch] can receive: a rejected query (only the
    duplicate-key error is modelled), a JavaScript [TypeError], or the
    [Error] bcrypt throws when its data or hash is not a string. *)
Inductive error : Type :=
| ER_DUP_ENTRY
| TypeError
| BcryptError.

Definition assign (a : assignment) (u : User.t) : User.t :=
  match a with
  | SetPassword h =>
      User.mk (User.id u) (User.email u) h (User.name u) (User.username u)
        (User.onboarded u) (User.image u) (User.resetToken u)
        (User.resetTokenExpiry u) (User.created_at u)
  | SetResetToken tok =>
      User.mk (User.id u) (User.email u) (User.password u) (User.name u)
        (User.username u) (User.onboarded u) (User.image u) tok
        (User.resetTokenExpiry u) (User.created_at u)
  | SetResetTokenExpiry e =>
      User.mk (User.id u) (User.email u) (User.password u) (User.name u)
        (User.username u) (User.onboarded u) (User.image u)
        (User.resetToken u) e (User.created_at u)
  | SetName n =>
      User.mk (User.id u) (User.email u) (User.password u) (Some n)
        (User.username u) (User.onboarded u) (User.image u)
        (User.resetToken u) (User.resetTokenExpiry u) (User.created_at u)
  | SetUsername n =>
      User.mk (User.id u) (User.email u) (User.password u) (User.name u)
        (Some n) (User.onboarded u) (User.image u) (User.resetToken u)
        (User.resetTokenExpiry u) (User.created_at u)
  | SetOnboarded b =>
      User.mk (User.id u) (User.email u) (User.password u) (User.name u)
        (User.username u) b (User.image u) (User.resetToken u)
        (User.resetTokenExpiry u) (User.created_at u)
  end.

(** All the assignments of one [SET] clause, applied to one row. *)
Definition assign_all (sets : list assignment) (u : User.t) : User.t :=
  fold_left (fun r a => assign a r) sets u.

(** [UPDATE users SET ... WHERE id = ?] on the rows. *)
Definition update_rows (sets : list assignment) (uid : Z) (db : table) : table :=
  map (fun u => if Z.eqb (User.id u) uid then assign_all sets u else u) db.

(** The next [AUTO_INCREMENT] value. *)
Definition auto_increment (db : table) : Z :=
  1 + fold_right (fun u m => Z.max (User.id u) m) 0 db.

Definition new_username (sets : list assignment) : option string :=
  fold_left (fun acc a => match a with SetUsername n => Some n | _ => acc end)
    sets None.

(** Does the statement run into [UNIQUE KEY email] or [UNIQUE KEY username]? *)
Definition violates_unique (s : stmt) (db : table) : bool :=
  match s with
  | INSERT e _ _ => existsb (fun u => String.eqb (User.email u) e) db
  | UPDATE sets uid =>
      match new_username sets with
      | Some n =>
          existsb (fun u => Z.eqb (User.id u) uid) db
          && existsb (fun u => opt_string_eqb (User.username u) n
                               && negb (Z.eqb (User.id u) uid)) db
      | None => false
      end
  end.

(** One statement against the table, at server time [now]. *)
Definition exec_stmt (now : Z) (s : stmt) (db : table) : error + table :=
  if violates_unique s db then inl ER_DUP_ENTRY
  else
    match s with
    | INSERT e p o =>
        inr (db ++ [User.mk (auto_increment db) e p None None o None None None now])%list
    | UPDATE sets uid => inr (update_rows sets uid db)
    end.

(* ----------------------------------------------------------------- *)
(** *** Handlers as computations over the table

    A handler reads and writes the table and may be interrupted by a
    rejected query.  Besides the final table a run records the table as it
    stood after every statement that wrote: these are the states another
    request can observe. *)

Record run (A : Type) : Type := mkRun {
  outcome : error + A;
  final : table;
  written : list table
}.
Arguments mkRun {A} _ _ _.
Arguments outcome {A} _.
Arguments final {A} _.
Arguments written {A} _.

Definition Sql (A : Type) : Type := table -> run A.

Definition ret {A} (a : A) : Sql A :=
  fun db => mkRun (inr a) db [].

Definition bind {A B} (m : Sql A) (k : A -> Sql B) : Sql B :=
  fun db =>
    let r := m db in
    match outcome r with
    | inl e => mkRun (inl e) (final r) (written r)
    | inr a =>
        let r' := k a (final r) in
        mkRun (outcome r') (final r') (written r ++ written r')%list
    end.

Definition throw {A} (e : error) : Sql A :=
  fun db => mkRun (inl e) db [].

Definition query {A} (q : table -> A) : Sql A :=
  fun db => mkRun (inr (q db)) db [].

Definition execute (now : Z) (s : stmt) : Sql unit :=
  fun db =>
    match exec_stmt now s db with
    | inl e => mkRun (inl e) db []
    | inr db' => mkRun (inr tt) db' [db']
    end.

(** [try { ... } catch (error) { ... }] around a handler body. *)
Definition try_catch {A} (m : Sql A) (handler : error -> A) : Sql A :=
  fun db =>
    let r := m db in
    match outcome r with
    | inl e => mkRun (inr (handler e)) (final r) (written r)
    | inr a => r
    end.

Declare Scope sql_scope.
Delimit Scope sql_scope with sql.
Notation "x <- m ;; k" := (bind m (fun x => k))
  (at level 61, m at next level, right associativity) : sql_scope.
Notation "m ;;; k" := (bind m (fun _ => k))
  (at level 61, right associativity) : sql_scope.

Local Open Scope sql_scope.

(* ================================================================= *)
(** ** Strings: [Buffer.toString('hex')] and [String.prototype.replace] *)

Definition hex_digit (n : N) : ascii :=
  match n with
  | 0%N => "0" | 1%N => "1" | 2%N => "2" | 3%N => "3"
  | 4%N => "4" | 5%N => "5" | 6%N => "6" | 7%N => "7"
  | 8%N => "8" | 9%N => "9" | 10%N => "a" | 11%N => "b"
  | 12%N => "c" | 13%N => "d" | 14%N => "e" | _ => "f"
  end%char.

(** [buf.toString('hex')]: two lower-case digits per byte. *)
Fixpoint toString_hex (buf : list byte) : string :=
  match buf with
  | [] => EmptyString
  | b :: rest =>
      let n := Byte.to_N b in
      String (hex_digit (N.div n 16))
        (String (hex_digit (N.modulo n 16)) (toString_hex rest))
  end.

Fixpoint skip (n : nat) (s : string) : string :=
  match n, s with
  | O, _ => s
  | S n', String _ s' => skip n' s'
  | S _, EmptyString => EmptyString
  end.

(** [s.replace(pattern, replacement)] with a string pattern: the first
    occurrence only. *)
Fixpoint replace (pattern replacement s : string) : string :=
  if String.prefix pattern s
  then replacement ++ skip (String.length pattern) s
  else match s with
       | EmptyString => EmptyString
       | String c s' => String c (replace pattern replacement s')
       end.

(* ================================================================= *)
(** ** Session-token claims *)

Module Claims.
Record t : Type := mk { id : Z; iat : Z; exp : Z }.
End Claims.

(** The errors [jwt.verify] throws. *)
Inductive jwt_error : Type :=
| TokenExpiredError
| JsonWebTokenError
| NotBeforeError.

(** What a request draws from the clock and the random sources while it
    is handled. *)
Record env : Type := mkEnv {
  now : Z;                   (* Date.now() and NOW(), in milliseconds *)
  salt : string;             (* the entropy bcrypt.hash draws for its salt *)
  randomBytes : list byte    (* crypto.randomBytes(32) *)
}.

(* ================================================================= *)
(** ** The libraries the server calls *)

Class Libraries : Type := {
  (** [bcrypt.hash(data, saltRounds)], with the entropy it draws made
      explicit, and [bcrypt.compare(data, encrypted)]. *)
  bcrypt_hash : string -> Z -> string -> string;
  bcrypt_compare : string -> string -> bool;
  (** [crypto.createHash('sha256').update(data).digest('hex')] *)
  sha256_hex : string -> string;
  (** [jwt.sign({ id }, secret, { expiresIn })] at a clock reading, and
      [jwt.verify(token, secret)] at a clock reading. *)
  jwt_sign : Z -> string -> string -> Z -> string;
  jwt_verify : string -> string -> Z -> jwt_error + Claims.t;
  (** [process.env.JWT_SECRET] *)
  JWT_SECRET : string
}.

(* ================================================================= *)
(** ** The server *)

Section Server.

Context {L : Libraries}.

(** [delete user.password] before the row goes into a response. *)
Definition without_password (u : User.t) : json :=
  JObj (delete_key "password" (User.to_json u)).

(* ----------------------------------------------------------------- *)
(** *** middleware/authMiddleware.js *)

Definition auth_failed : response :=
  mkResponse 401 (JObj [("error", JStr "Authentication failed.")]).

(** Either the 401 response of the [catch] branch, or [req.user] as it is
    when [next()] is called. *)
Definition authMiddleware (clock : Z) (authorization : option string)
  : response + Claims.t :=
  match authorization with
  | None => inl auth_failed
  | Some header =>
      let token := replace "Bearer " "" header in
      match jwt_verify token JWT_SECRET clock with
      | inr decoded => inr decoded
      | inl _ => inl auth_failed
      end
  end.

(* ----------------------------------------------------------------- *)
(** *** POST /api/register *)

Definition register (e : env) (email password : option string) : Sql response :=
  if falsy email || falsy password
  then ret (message_response 400 "Email and password are required")
  else
    try_catch
      (users <- query (select_by_email (field_value email)) ;;
       if (0 <? Z.of_nat (List.length users))
       then ret (message_response 409 "User with this email already exists")
       else
         let hashedPassword := bcrypt_hash (field_value password) 10 (salt e) in
         execute (now e) (INSERT (field_value email) hashedPassword 0) ;;;
         newUsers <- query (select_by_email (field_value email)) ;;
         match newUsers with
         | newUser :: _ =>
             ret (mkResponse 201
                    (JObj [("message", JStr "User registered successfully");
                           ("user", without_password newUser)]))
         | [] => throw TypeError
         end)
      (fun _ => message_response 500 "An error occurred during registration").

(* ----------------------------------------------------------------- *)
(** *** POST /api/login *)

Definition invalid_credentials : response :=
  message_response 401 "Invalid email or password".

Definition login (e : env) (email password : option string) : Sql response :=
  if falsy email || falsy password
  then ret (message_response 400 "Email and password are required")
  else
    try_catch
      (users <- query (select_by_email (field_value email)) ;;
       match users with
       | [] => ret invalid_credentials
       | user :: _ =>
           let isMatch := bcrypt_compare (field_value password) (User.password user) in
           if negb isMatch
           then ret invalid_credentials
           else
             let token := jwt_sign (User.id user) JWT_SECRET "1h" (now e) in
             ret (mkResponse 200
                    (JObj [("user", without_password user);
                           ("token", JStr token)]))
       end)
      (fun _ => message_response 500 "An error occurred during login").

(** The same handler with the [password] field as [express.json()] hands
    it over: any JSON value.  [!password] is JavaScript's: [null], [0] and
    the empty string are falsy, every other number, string and object is
    truthy.  [bcrypt.compare(data, hash)] rejects when [data] is not a
    string, and the rejection lands in the [catch].  ([email] stays a
    string: what [mysql2] makes of another value in the [WHERE] clause is
    not modelled.) *)
Definition falsy_value (field : option json) : bool :=
  match field with
  | None => true
  | Some JNull => true
  | Some (JNum n) => Z.eqb n 0
  | Some (JStr s) => String.eqb s ""
  | Some (JObj _) => false
  end.

Definition bcrypt_compare_value (data : json) (encrypted : string) : Sql bool :=
  match data with
  | JStr s => ret (bcrypt_compare s encrypted)
  | _ => throw BcryptError
  end.

Definition login_raw (e : env) (email : option string) (password : option json)
  : Sql response :=
  if falsy email || falsy_value password
  then ret (message_response 400 "Email and password are required")
  else
    try_catch
      (users <- query (select_by_email (field_value email)) ;;
       match users with
       | [] => ret invalid_credentials
       | user :: _ =>
           isMatch <- bcrypt_compare_value
                        (match password with Some v => v | None => JNull end)
                        (User.password user) ;;
           if negb isMatch
           then ret invalid_credentials
           else
             let token := jwt_sign (User.id user) JWT_SECRET "1h" (now e) in
             ret (mkResponse 200
                    (JObj [("user", without_password user);
                           ("token", JStr token)]))
       end)
      (fun _ => message_response 500 "An error occurred during login").

(* ----------------------------------------------------------------- *)
(** *** PUT /api/profile/password (behind [authMiddleware]) *)

Definition password_updated : response :=
  message_response 200 "Password updated successfully".

Definition change_password (e : env) (req_user : Claims.t)
    (oldPassword newPassword : option string) : Sql response :=
  if falsy oldPassword || falsy newPassword
  then ret (message_response 400 "Old and new passwords are required")
  else
    try_catch
      (users <- query (select_by_id (Claims.id req_user)) ;;
       match users with
       | [] => ret (message_response 404 "User not found")
       | user :: _ =>
           let isMatch :=
             bcrypt_compare (field_value oldPassword) (User.password user) in
           if negb isMatch
           then ret (message_response 401 "Incorrect old password")
           else
             let hashedNewPassword :=
               bcrypt_hash (field_value newPassword) 10 (salt e) in
             execute (now e)
               (UPDATE [SetPassword hashedNewPassword] (User.id user)) ;;;
             ret password_updated
       end)
      (fun _ => message_response 500
                  "An error occurred while changing the password").

(* ----------------------------------------------------------------- *)
(** *** POST /api/forgot-password *)

Definition forgot_password_sent : response :=
  message_response 200
    "If a user with that email exists, a password reset link has been sent.".

(** The secret and the value stored for it. *)
Definition resetToken_of (e : env) : string := toString_hex (randomBytes e).
Definition hashedResetToken_of (e : env) : string := sha256_hex (resetToken_of e).
Definition tokenExpiry_of (e : env) : Z := now e + 3600000.

Definition forgot_password (e : env) (email : option string) : Sql response :=
  if falsy email
  then ret (message_response 400 "Email is required")
  else
    try_catch
      (users <- query (select_by_email (field_value email)) ;;
       match users with
       | user :: _ =>
           let resetToken := resetToken_of e in
           let hashedResetToken := sha256_hex resetToken in
           let tokenExpiry := now e + 3600000 in
           execute (now e)
             (UPDATE [SetResetToken (Some hashedResetToken);
                      SetResetTokenExpiry (Some tokenExpiry)] (User.id user)) ;;;
           ret forgot_password_sent
       | [] => ret forgot_password_sent
       end)
      (fun _ => message_response 500 "An error occurred").

(* ----------------------------------------------------------------- *)
(** *** POST /api/reset-password *)

Definition invalid_or_expired_token : response :=
  message_response 400 "Invalid or expired password reset token.".

Definition password_reset_ok : response :=
  message_response 200 "Password has been reset successfully.".

Definition reset_password (e : env) (token newPassword : option string)
  : Sql response :=
  if falsy token || falsy newPassword
  then ret (message_response 400 "Token and new password are required")
  else
    try_catch
      (let hashedToken := sha256_hex (field_value token) in
       users <- query (select_by_reset_token hashedToken (now e)) ;;
       match users with
       | [] => ret invalid_or_expired_token
       | user :: _ =>
           let hashedNewPassword :=
             bcrypt_hash (field_value newPassword) 10 (salt e) in
           execute (now e)
             (UPDATE [SetPassword hashedNewPassword;
                      SetResetToken None;
                      SetResetTokenExpiry None] (User.id user)) ;;;
           ret password_reset_ok
       end)
      (fun _ => message_response 500
                  "An error occurred while resetting the password.").

(* ----------------------------------------------------------------- *)
(** *** PUT /api/onboarding (behind [authMiddleware]) *)

Definition username_taken : response :=
  message_response 409 "Username is already taken. Please choose another.".

Definition onboarding (e : env) (req_user : Claims.t)
    (name username : option string) : Sql response :=
  let userId := Claims.id req_user in
  if falsy name || falsy username
  then ret (message_response 400 "Name and username are required")
  else
    try_catch
      (existingUser <-
         query (select_by_username_excluding (field_value username) userId) ;;
       if (0 <? Z.of_nat (List.length existingUser))
       then ret username_taken
       else
         execute (now e)
           (UPDATE [SetName (field_value name);
                    SetUsername (field_value username);
                    SetOnboarded 1] userId) ;;;
         ret (message_response 200 "Onboarding completed successfully!"))
      (fun err =>
         match err with
         | ER_DUP_ENTRY => username_taken
         | _ => message_response 500
                  "An error occurred during the onboarding process."
         end).

(* ----------------------------------------------------------------- *)
(** *** The routing table *)

Inductive request : Type :=
| POST_register (email password : option string)
| POST_login (email password : option string)
| PUT_profile_password (authorization oldPassword newPassword : option string)
| POST_forgot_password (email : option string)
| POST_reset_password (token newPassword : option string)
| PUT_onboarding (authorization name username : option string).

(** A route registered with [authMiddleware] in front of its handler. *)
Definition protected (e : env) (authorization : option string)
    (handler : Claims.t -> Sql response) : Sql response :=
  match authMiddleware (now e) authorization with
  | inl denied => ret denied
  | inr req_user => handler req_user
  end.

Definition app (e : env) (r : request) : Sql response :=
  match r with
  | POST_register email password => register e email password
  | POST_login email password => login e email password
  | PUT_profile_password authorization oldPassword newPassword =>
      protected e authorization
        (fun req_user => change_password e req_user oldPassword newPassword)
  | POST_forgot_password email => forgot_password e email
  | POST_reset_password token newPassword => reset_password e token newPassword
  | PUT_onboarding authorization name username =>
      protected e authorization
        (fun req_user => onboarding e req_user name username)
  end.

(** The [app.post] and [app.put] registrations of [server.js], in order. *)
Inductive route : Type :=
| Register | Login | ProfilePassword | ForgotPassword | ResetPassword
| Onboarding.

Definition routes : list (string * string * route) :=
  [ ("POST", "/api/register", Register);
    ("POST", "/api/login", Login);
    ("PUT", "/api/profile/password", ProfilePassword);
    ("POST", "/api/forgot-password", ForgotPassword);
    ("POST", "/api/reset-password", ResetPassword);
    ("PUT", "/api/onboarding", Onboarding) ].

(** Express matches a path without regard to case and to one trailing
    slash (its defaults, which [server.js] leaves alone). *)
Definition to_lower (c : ascii) : ascii :=
  let n := nat_of_ascii c in
  if (65 <=? n)%nat && (n <=? 90)%nat then ascii_of_nat (n + 32) else c.

Fixpoint normalize_path (path : string) : string :=
  match path with
  | EmptyString => EmptyString
  | String c rest =>
      match rest with
      | String "/" EmptyString => String (to_lower c) EmptyString
      | _ => String (to_lower c) (normalize_path rest)
      end
  end.

Definition dispatch (method path : string) : option route :=
  match
    find (fun entry =>
            String.eqb (fst (fst entry)) method
            && String.eqb (snd (fst entry)) (normalize_path path)) routes
  with
  | Some entry => Some (snd entry)
  | None => None
  end.

(** What Express answers when no route matches: 404 with the text
    "Cannot METHOD path" (sent as a small HTML page). *)
Definition not_found (method path : string) : response :=
  mkResponse 404 (JStr ("Cannot " ++ method ++ " " ++ path)).

(** A request at the HTTP level: the handler of the matching route runs, or
    nothing does. *)
Definition express (method path : string) (handler : route -> Sql response)
  : Sql response :=
  match dispatch method path with
  | Some r => handler r
  | None => ret (not_found method path)
  end.

(** The table after a sequence of requests, each with its own clock reading
    and random draws. *)
Fixpoint serve (reqs : list (env * request)) (db : table) : table :=
  match reqs with
  | [] => db
  | (e, r) :: rest => serve rest (final (app e r db))
  end.

End Server.

(* ================================================================= *)
(** ** A small executable instance of the libraries

    Used to run the handlers on concrete requests.  The digest and the
    password hash are transparent tags; the session token carries its claims
    in binary followed by the signing secret, all of it twice. *)

Module Toy.

Fixpoint after_dollar (s : string) : string :=
  match s with
  | EmptyString => EmptyString
  | String c s' => if Ascii.eqb c "$" then s' else after_dollar s'
  end.

Definition hash (data : string) (saltRounds : Z) (salt : string) : string :=
  salt ++ "$" ++ data.

Definition compare (data encrypted : string) : bool :=
  String.eqb (after_dollar encrypted) data.

Definition digest (data : string) : string := "sha256:" ++ data.

Fixpoint enc_pos (p : positive) : string :=
  match p with
  | xI q => String "1" (enc_pos q)
  | xO q => String "0" (enc_pos q)
  | xH => "."
  end.

Definition enc_Z (z : Z) : string :=
  match z with
  | Z0 => "z"
  | Zpos p => String "+" (enc_pos p)
  | Zneg p => String "-" (enc_pos p)
  end.

Fixpoint dec_pos (s : string) : option (positive * string) :=
  match s with
  | EmptyString => None
  | String c rest =>
      if Ascii.eqb c "." then Some (xH, rest)
      else if Ascii.eqb c "1" then
        match dec_pos rest with
        | Some (q, r) => Some (xI q, r)
        | None => None
        end
      else if Ascii.eqb c "0" then
        match dec_pos rest with
        | Some (q, r) => Some (xO q, r)
        | None => None
        end
      else None
  end.

Definition dec_Z (s : string) : option (Z * string) :=
  match s with
  | EmptyString => None
  | String c rest =>
      if Ascii.eqb c "z" then Some (0, rest)
      else if Ascii.eqb c "+" then
        match dec_pos rest with
        | Some (p, r) => Some (Zpos p, r)
        | None => None
        end
      else if Ascii.eqb c "-" then
        match dec_pos rest with
        | Some (p, r) => Some (Zneg p, r)
        | None => None
        end
      else None
  end.

(** Seconds of validity for an [expiresIn] string. *)
Definition timespan (expiresIn : string) : Z :=
  if String.eqb expiresIn "1h" then 3600 else 0.

(** The claims followed by the secret, written twice: either copy vouches
    for the other, so that no single flipped bit goes unnoticed. *)
Definition sealed (payload_id issued expires : Z) (secret : string) : string :=
  let once := enc_Z payload_id ++ enc_Z issued ++ enc_Z expires ++ secret in
  once ++ once.

Definition sign (payload_id : Z) (secret expiresIn : string) (clock : Z) : string :=
  let iat := clock / 1000 in
  sealed payload_id iat (iat + timespan expiresIn) secret.

(** A token is accepted only if it is, letter for letter, what [sign]
    makes of the claims read from it. *)
Definition verify (token secret : string) (clock : Z) : jwt_error + Claims.t :=
  match dec_Z token with
  | None => inl JsonWebTokenError
  | Some (i, r1) =>
      match dec_Z r1 with
      | None => inl JsonWebTokenError
      | Some (issued, r2) =>
          match dec_Z r2 with
          | None => inl JsonWebTokenError
          | Some (expires, _) =>
              if negb (String.eqb token (sealed i issued expires secret))
              then inl JsonWebTokenError
              else if negb ((expires =? issued + 3600) || (expires =? issued + 0))
              then inl JsonWebTokenError
              else if expires <=? clock / 1000 then inl TokenExpiredError
              else inr (Claims.mk i issued expires)
          end
      end
  end.

Definition libraries : Libraries := {|
  bcrypt_hash := hash;
  bcrypt_compare := compare;
  sha256_hex := digest;
  jwt_sign := sign;
  jwt_verify := verify;
  JWT_SECRET := "s3cr3t"
|}.

End Toy.

(* ================================================================= *)
(** ** What the server relies on from [jsonwebtoken]

    [jwt.sign] stamps [iat = floor(clock / 1000)] and [exp = iat + 3600] for
    [expiresIn: '1h']; [jwt.verify] with the same secret returns the claims
    while [floor(clock' / 1000) < exp] and throws [TokenExpiredError] from
    then on. *)
Definition jwt_contract (L : Libraries) : Prop :=
  forall (payload_id : Z) (secret : string) (clock clock' : Z),
    let iat := clock / 1000 in
    let exp := iat + 3600 in
    jwt_verify (jwt_sign payload_id secret "1h" clock) secret clock'
    = if clock' / 1000 <? exp
      then inr (Claims.mk payload_id iat exp)
      else inl TokenExpiredError.

(** One bit of one character flipped: bit [b] of the character at
    position [i]. *)
Definition flip_ascii (b : nat) (c : ascii) : ascii :=
  match c with
  | Ascii b0 b1 b2 b3 b4 b5 b6 b7 =>
      match b with
      | 0%nat => Ascii (negb b0) b1 b2 b3 b4 b5 b6 b7
      | 1%nat => Ascii b0 (negb b1) b2 b3 b4 b5 b6 b7
      | 2%nat => Ascii b0 b1 (negb b2) b3 b4 b5 b6 b7
      | 3%nat => Ascii b0 b1 b2 (negb b3) b4 b5 b6 b7
      | 4%nat => Ascii b0 b1 b2 b3 (negb b4) b5 b6 b7
      | 5%nat => Ascii b0 b1 b2 b3 b4 (negb b5) b6 b7
      | 6%nat => Ascii b0 b1 b2 b3 b4 b5 (negb b6) b7
      | 7%nat => Ascii b0 b1 b2 b3 b4 b5 b6 (negb b7)
      | _ => c
      end
  end.

Fixpoint flip_bit (i b : nat) (s : string) {struct s} : string :=
  match s with
  | EmptyString => EmptyString
  | String c rest =>
      match i with
      | O => String (flip_ascii b c) rest
      | S i' => String c (flip_bit i' b rest)
      end
  end.

(** What the server relies on from the signature: [jwt.verify] accepts
    nothing but tokens that [jwt.sign] made with the same secret for the
    claims it returns, and a signed token with any one bit flipped is
    refused with [JsonWebTokenError]. *)
Definition jwt_integrity (L : Libraries) : Prop :=
  (forall (token secret : string) (clock : Z) (claims : Claims.t),
     jwt_verify token secret clock = inr claims ->
     exists expiresIn clock0,
       token = jwt_sign (Claims.id claims) secret expiresIn clock0)
  /\ (forall (payload_id : Z) (secret expiresIn : string) (clock0 clock : Z)
         (i b : nat),
        (i < String.length (jwt_sign payload_id secret expiresIn clock0))%nat ->
        (b < 8)%nat ->
        jwt_verify (flip_bit i b (jwt_sign payload_id secret expiresIn clock0))
          secret clock
        = inl JsonWebTokenError).

(* ================================================================= *)
(** ** Vocabulary of the properties *)

(** The [SET] clauses of forgot-password and of reset-password. *)
Definition issue_sets (fingerprint : string) (expiry : Z) : list assignment :=
  [SetResetToken (Some fingerprint); SetResetTokenExpiry (Some expiry)].

Definition redeem_sets (hashedNewPassword : string) : list assignment :=
  [SetPassword hashedNewPassword; SetResetToken None; SetResetTokenExpiry None].

(** No row holds this fingerprint: the secret behind it is a fresh draw. *)
Definition fingerprint_unused (fingerprint : string) (db : table) : Prop :=
  forall u, In u db -> User.resetToken u <> Some fingerprint.

(** A row with its [password] column blanked: what is left is every other
    column. *)
Definition besides_password (u : User.t) : User.t := assign (SetPassword "") u.

Definition reset_fields_paired (u : User.t) : bool :=
  match User.resetToken u, User.resetTokenExpiry u with
  | None, None => true
  | Some _, Some _ => true
  | _, _ => false
  end.

Definition table_paired (db : table) : Prop :=
  Forall (fun u => reset_fields_paired u = true) db.

(** A computation maintains [I] if every table it leaves behind, at the end
    or in between, satisfies [I] whenever the initial one does. *)
Definition maintains {A} (I : table -> Prop) (m : Sql A) : Prop :=
  forall db, I db -> I (final (m db)) /\ Forall I (written (m db)).

Definition opt_list {A} (o : option A) : list A :=
  match o with Some a => [a] | None => [] end.





(** [responseData.token] as the client reads it from a login response. *)
Definition token_of (r : run response) : string :=
  match outcome r with
  | inr resp =>
      match body resp with
      | JObj fields =>
          match get_key "token" fields with
          | Some (JStr t) => t
          | _ => ""
          end
      | _ => ""
      end
  | inl _ => ""
  end.

(** One bit of the first character flipped. *)
Definition flip_first_bit (s : string) : string :=
  match s with
  | String (Ascii b0 b1 b2 b3 b4 b5 b6 b7) rest =>
      String (Ascii (negb b0) b1 b2 b3 b4 b5 b6 b7) rest
  | EmptyString => EmptyString
  end.

(* ----------------------------------------------------------------- *)
(** *** A concrete run *)

Module Run.

#[local] Existing Instance Toy.libraries.

Definition alice : User.t :=
  User.mk 1 "a@x.com" (Toy.hash "pw1" 10 "salt") None None 0 None None None 0.

Definition db0 : table := [alice].

(** Requests at one second, one minute, and one hour and one second. *)
Definition e0 : env := mkEnv 1000 "s0" (repeat x2a 32).
Definition e1 : env := mkEnv 60000 "s1" (repeat x2b 32).
Definition e2 : env := mkEnv 3601000 "s2" (repeat x2c 32).

(** The secret drawn for the forgot-password request at [e0], and what the
    server stores for it. *)
Definition secret0 : string := resetToken_of e0.
Definition fingerprint0 : string := hashedResetToken_of e0.

(** The table after forgot-password for alice at [e0]. *)
Definition db1 : table := final (forgot_password e0 (Some "a@x.com") db0).

(** ... and after the reset secret was redeemed at [e1]. *)
Definition db2 : table :=
  final (reset_password e1 (Some secret0) (Some "pw2") db1).

(** alice's row while the reset token is outstanding. *)
Definition alice1 : User.t :=
  User.mk 1 "a@x.com" (Toy.hash "pw1" 10 "salt") None None 0 None
    (Some fingerprint0) (Some 3601000) 0.

(** The session token alice gets by logging in at [e0]. *)
Definition session0 : string :=
  token_of (login e0 (Some "a@x.com") (Some "pw1") db0).

End Run.

(* ================================================================= *)
(** ** Vocabulary of the further properties *)

(** The row [INSERT INTO users (email, password, onboarded)] creates. *)
Definition inserted_row (clock : Z) (db : table) (email password : string)
    (flag : Z) : User.t :=
  User.mk (auto_increment db) email password None None flag None None None clock.

(** The [SET] clause of onboarding. *)
Definition onboard_sets (name username : string) : list assignment :=
  [SetName name; SetUsername username; SetOnboarded 1].

(** What one request can do to the table: nothing, or one of the five
    writing statements of [server.js]. *)
Inductive footprint (clock : Z) (db : table) : table -> Prop :=
| touch_nothing : footprint clock db db
| touch_insert (email password : string) :
    select_by_email email db = [] ->
    footprint clock db (db ++ [inserted_row clock db email password 0])%list
| touch_password (h : string) (uid : Z) :
    footprint clock db (update_rows [SetPassword h] uid db)
| touch_issue (fp : string) (uid : Z) :
    footprint clock db (update_rows (issue_sets fp (clock + 3600000)) uid db)
| touch_redeem (h : string) (uid : Z) :
    footprint clock db (update_rows (redeem_sets h) uid db)
| touch_onboard (name username : string) (uid : Z) :
    select_by_username_excluding username uid db = [] ->
    footprint clock db (update_rows (onboard_sets name username) uid db).

(** The non-null usernames of the table. *)
Definition usernames (db : table) : list string :=
  flat_map (fun u => opt_list (User.username u)) db.

(** The keys of [CREATE TABLE users]: [PRIMARY KEY (id)],
    [UNIQUE KEY email], [UNIQUE KEY username] (NULLs do not collide). *)
Definition well_keyed (db : table) : Prop :=
  NoDup (map User.id db) /\ NoDup (map User.email db) /\ NoDup (usernames db).



(** Every key that occurs somewhere inside a JSON document. *)
Fixpoint json_keys (j : json) : list string :=
  match j with
  | JObj fields =>
      (fix go (fs : list (string * json)) : list string :=
         match fs with
         | [] => []
         | (k, v) :: rest => (k :: json_keys v ++ go rest)%list
         end) fields
  | _ => []
  end.

(** The body fields a route requires. *)
Definition required_fields (r : request) : list (option string) :=
  match r with
  | POST_register email password => [email; password]
  | POST_login email password => [email; password]
  | PUT_profile_password _ oldPassword newPassword => [oldPassword; newPassword]
  | POST_forgot_password email => [email]
  | POST_reset_password token newPassword => [token; newPassword]
  | PUT_onboarding _ name username => [name; username]
  end.

(** A row with both reset columns blanked. *)
Definition besides_reset (u : User.t) : User.t :=
  assign_all [SetResetToken None; SetResetTokenExpiry None] u.

(** No blank in the string. *)
Fixpoint no_space (s : string) : bool :=
  match s with
  | EmptyString => true
  | String c s' => negb (Ascii.eqb c " ") && no_space s'
  end.

(** The request gets past [authMiddleware], if its route has it in front. *)
Definition admitted {L : Libraries} (e : env) (r : request) : Prop :=
  match r with
  | PUT_profile_password authorization _ _
  | PUT_onboarding authorization _ _ =>
      exists req_user, authMiddleware (now e) authorization = inr req_user
  | _ => True
  end.

(* ----------------------------------------------------------------- *)
(** *** A table with two accounts *)

Module Run2.

#[local] Existing Instance Toy.libraries.

(** bob is onboarded as "bob". *)
Definition bob : User.t :=
  User.mk 2 "b@x.com" (Toy.hash "pw2" 10 "salt") (Some "Bob") (Some "bob") 1
    None None None 0.

Definition db : table := [Run.alice; bob].

(** alice's and bob's claims, as [jwt.verify] returns them for tokens
    signed at [Run.e0]. *)
Definition alice_claims : Claims.t := Claims.mk 1 1 3601.
Definition bob_claims : Claims.t := Claims.mk 2 1 3601.

End Run2.

(* ================================================================= *)
(** * Properties *)

(** ** Strings *)

Lemma toString_hex_nonempty (buf : list byte) :
  buf <> [] -> toString_hex buf <> "".
Proof.
  destruct buf as [|b rest]; [congruence | discriminate].
Qed.

Lemma toString_hex_length (buf : list byte) :
  String.length (toString_hex buf) = (2 * List.length buf)%nat.
Proof.
  induction buf as [|b rest IH]; simpl; [reflexivity | rewrite IH; lia].
Qed.

Lemma falsy_Some (s : string) : s <> "" -> falsy (Some s) = false.
Proof.
  intros H. simpl. apply String.eqb_neq. exact H.
Qed.

(** [("Bearer " + token).replace("Bearer ", "")] is the token. *)
Lemma replace_Bearer (token : string) :
  replace "Bearer " "" ("Bearer " ++ token) = token.
Proof.
  destruct token; reflexivity.
Qed.

(* ----------------------------------------------------------------- *)
(** ** Rows and statements *)

Lemma assign_all_id (sets : list assignment) (u : User.t) :
  User.id (assign_all sets u) = User.id u.
Proof.
  unfold assign_all. revert u.
  induction sets as [|a sets IH]; intros u; simpl; [reflexivity|].
  rewrite IH. destruct a; reflexivity.
Qed.

Lemma in_update_rows (sets : list assignment) (uid : Z) (db : table) (v : User.t) :
  In v (update_rows sets uid db) ->
  exists u, In u db /\
            v = (if User.id u =? uid then assign_all sets u else u).
Proof.
  unfold update_rows. intros H. apply in_map_iff in H.
  destruct H as [u [Hv Hu]]. exists u. split; [exact Hu | symmetry; exact Hv].
Qed.

(** The head of a filtered list is a member that passes the filter. *)
Lemma filter_head {A} (f : A -> bool) (l : list A) (x : A) (rest : list A) :
  filter f l = x :: rest -> In x l /\ f x = true.
Proof.
  intros H. apply filter_In. rewrite H. left. reflexivity.
Qed.

Lemma cons_eq_inv {A} (x y : A) (l l' : list A) :
  x :: l = y :: l' -> x = y /\ l = l'.
Proof.
  intros H. injection H as Hx Hl. split; assumption.
Qed.

Lemma filter_nil_iff {A} (f : A -> bool) (l : list A) :
  filter f l = [] <-> (forall x, In x l -> f x = false).
Proof.
  induction l as [|a l IH]; simpl.
  - split; [intros _ x [] | reflexivity].
  - destruct (f a) eqn:Ha.
    + split; [discriminate|]. intros H. specialize (H a (or_introl eq_refl)).
      congruence.
    + rewrite IH. split.
      * intros H x [<-|Hx]; [exact Ha | apply H; exact Hx].
      * intros H x Hx. apply H. right. exact Hx.
Qed.

Lemma opt_string_eqb_true (o : option string) (s : string) :
  opt_string_eqb o s = true <-> o = Some s.
Proof.
  destruct o as [x|]; simpl.
  - rewrite String.eqb_eq. split; congruence.
  - split; discriminate.
Qed.

(** An [UPDATE] that sets no username cannot hit a unique key. *)
Lemma exec_update_no_username (clock : Z) (sets : list assignment) (uid : Z)
    (db : table) :
  new_username sets = None ->
  exec_stmt clock (UPDATE sets uid) db = inr (update_rows sets uid db).
Proof.
  intros H. unfold exec_stmt, violates_unique. rewrite H. reflexivity.
Qed.

(* ----------------------------------------------------------------- *)
(** ** The reset-token columns *)

Lemma fingerprint_unused_cons (fp : string) (u : User.t) (db : table) :
  fingerprint_unused fp (u :: db) ->
  User.resetToken u <> Some fp /\ fingerprint_unused fp db.
Proof.
  intros H. split.
  - apply H. left. reflexivity.
  - intros v Hv. apply H. right. exact Hv.
Qed.

Lemma unused_no_match (fp : string) (clock : Z) (u : User.t) :
  User.resetToken u <> Some fp -> reset_row_matches fp clock u = false.
Proof.
  intros H. unfold reset_row_matches.
  destruct (opt_string_eqb (User.resetToken u) fp) eqn:E; [|reflexivity].
  apply opt_string_eqb_true in E. contradiction.
Qed.

Lemma unused_select_nil (fp : string) (clock : Z) (db : table) :
  fingerprint_unused fp db -> select_by_reset_token fp clock db = [].
Proof.
  intros H. apply filter_nil_iff. intros u Hu.
  apply unused_no_match. apply H. exact Hu.
Qed.

Lemma issued_row_matches (fp : string) (expiry clock : Z) (u : User.t) :
  reset_row_matches fp clock (assign_all (issue_sets fp expiry) u)
  = (clock <? expiry).
Proof.
  unfold reset_row_matches. simpl. rewrite String.eqb_refl. reflexivity.
Qed.

(** While the token is live, the rows it selects are exactly the rows the
    forgot-password [UPDATE] touched. *)
Lemma select_issued_live (fp : string) (expiry clock uid : Z) (db : table) :
  fingerprint_unused fp db ->
  clock < expiry ->
  select_by_reset_token fp clock (update_rows (issue_sets fp expiry) uid db)
  = map (assign_all (issue_sets fp expiry)) (select_by_id uid db).
Proof.
  intros Hfresh Hlt. induction db as [|u db IH]; [reflexivity|].
  apply fingerprint_unused_cons in Hfresh. destruct Hfresh as [Hu Hdb].
  specialize (IH Hdb).
  unfold select_by_reset_token, select_by_id, update_rows in *.
  cbn [map filter].
  destruct (User.id u =? uid) eqn:E.
  - rewrite issued_row_matches.
    apply Z.ltb_lt in Hlt. rewrite Hlt. cbn [map]. f_equal. exact IH.
  - rewrite (unused_no_match fp clock u Hu). exact IH.
Qed.

(** From the expiry instant on, the token selects nothing. *)
Lemma select_issued_expired (fp : string) (expiry clock uid : Z) (db : table) :
  fingerprint_unused fp db ->
  expiry <= clock ->
  select_by_reset_token fp clock (update_rows (issue_sets fp expiry) uid db) = [].
Proof.
  intros Hfresh Hge. apply filter_nil_iff. intros v Hv.
  apply in_update_rows in Hv. destruct Hv as [u [Hu ->]].
  destruct (User.id u =? uid).
  - rewrite issued_row_matches. apply Z.ltb_ge. exact Hge.
  - apply unused_no_match. apply Hfresh. exact Hu.
Qed.

(** After redemption no row holds the fingerprint any more. *)
Lemma redeemed_unused (fp h : string) (expiry uid : Z) (db : table) :
  fingerprint_unused fp db ->
  fingerprint_unused fp
    (update_rows (redeem_sets h) uid (update_rows (issue_sets fp expiry) uid db)).
Proof.
  intros Hfresh w Hw.
  apply in_update_rows in Hw. destruct Hw as [v [Hv ->]].
  apply in_update_rows in Hv. destruct Hv as [u [Hu ->]].
  destruct (User.id u =? uid) eqn:E.
  - rewrite assign_all_id, E. simpl. discriminate.
  - rewrite E. apply Hfresh. exact Hu.
Qed.

(** A second forgot-password for the same rows replaces the fingerprint. *)
Lemma reissued_unused (fp1 fp2 : string) (x1 x2 uid : Z) (db : table) :
  fp1 <> fp2 ->
  fingerprint_unused fp1 db ->
  fingerprint_unused fp1
    (update_rows (issue_sets fp2 x2) uid (update_rows (issue_sets fp1 x1) uid db)).
Proof.
  intros Hne Hfresh w Hw.
  apply in_update_rows in Hw. destruct Hw as [v [Hv ->]].
  apply in_update_rows in Hv. destruct Hv as [u [Hu ->]].
  destruct (User.id u =? uid) eqn:E.
  - rewrite assign_all_id, E. simpl. congruence.
  - rewrite E. apply Hfresh. exact Hu.
Qed.

(* ----------------------------------------------------------------- *)
(** ** What each reset handler does to the table *)

(** Unfold the plumbing of a handler run, keeping statements folded. *)
Ltac run_sql :=
  unfold try_catch, bind, query, execute, ret, throw;
  cbn [outcome final written field_value orb].

Section ResetHandlers.

Context {L : Libraries}.

Lemma forgot_password_hit (e : env) (email : string) (db : table)
    (user : User.t) (rest : list User.t) :
  email <> "" ->
  select_by_email email db = user :: rest ->
  let db' :=
    update_rows (issue_sets (hashedResetToken_of e) (tokenExpiry_of e))
      (User.id user) db in
  forgot_password e (Some email) db = mkRun (inr forgot_password_sent) db' [db'].
Proof.
  intros Hne Hsel. unfold forgot_password.
  rewrite (falsy_Some email Hne).
  run_sql. rewrite Hsel. run_sql.
  rewrite exec_update_no_username by reflexivity. reflexivity.
Qed.

Lemma forgot_password_miss (e : env) (email : string) (db : table) :
  email <> "" ->
  select_by_email email db = [] ->
  forgot_password e (Some email) db = mkRun (inr forgot_password_sent) db [].
Proof.
  intros Hne Hsel. unfold forgot_password.
  rewrite (falsy_Some email Hne).
  run_sql. rewrite Hsel. reflexivity.
Qed.

Lemma reset_password_hit (e : env) (token newPassword : string) (db : table)
    (user : User.t) (rest : list User.t) :
  token <> "" -> newPassword <> "" ->
  select_by_reset_token (sha256_hex token) (now e) db = user :: rest ->
  let db' :=
    update_rows (redeem_sets (bcrypt_hash newPassword 10 (salt e)))
      (User.id user) db in
  reset_password e (Some token) (Some newPassword) db
  = mkRun (inr password_reset_ok) db' [db'].
Proof.
  intros Ht Hp Hsel. unfold reset_password.
  rewrite (falsy_Some token Ht), (falsy_Some newPassword Hp).
  run_sql. rewrite Hsel. run_sql.
  rewrite exec_update_no_username by reflexivity. reflexivity.
Qed.

Lemma reset_password_miss (e : env) (token newPassword : string) (db : table) :
  token <> "" -> newPassword <> "" ->
  select_by_reset_token (sha256_hex token) (now e) db = [] ->
  reset_password e (Some token) (Some newPassword) db
  = mkRun (inr invalid_or_expired_token) db [].
Proof.
  intros Ht Hp Hsel. unfold reset_password.
  rewrite (falsy_Some token Ht), (falsy_Some newPassword Hp).
  run_sql. rewrite Hsel. reflexivity.
Qed.

End ResetHandlers.

Lemma select_by_id_nonempty (u : User.t) (db : table) :
  In u db ->
  exists v rest, select_by_id (User.id u) db = v :: rest
                 /\ User.id v = User.id u.
Proof.
  intros Hin.
  destruct (select_by_id (User.id u) db) as [|v rest] eqn:E.
  - assert (H : (User.id u =? User.id u) = false).
    { apply (proj1 (filter_nil_iff _ db) E u Hin). }
    rewrite Z.eqb_refl in H. discriminate.
  - exists v, rest. split; [reflexivity|].
    apply filter_head in E. destruct E as [_ E]. apply Z.eqb_eq. exact E.
Qed.

(** The rows an [UPDATE ... WHERE id = uid] touched carry its assignments. *)
Lemma redeemed_rows (h : string) (uid : Z) (db : table) (w : User.t) :
  In w (update_rows (redeem_sets h) uid db) ->
  User.id w = uid ->
  User.password w = h
  /\ User.resetToken w = None /\ User.resetTokenExpiry w = None.
Proof.
  intros Hw Hid. apply in_update_rows in Hw. destruct Hw as [u [_ ->]].
  destruct (User.id u =? uid) eqn:E.
  - simpl. repeat split.
  - apply Z.eqb_neq in E. contradiction.
Qed.

(* ================================================================= *)
(** ** Reset tokens are single-use and time-boxed *)

Section ResetToken.

Context {L : Libraries}.

(** C1.  An account is issued a reset token by forgot-password (the secret
    being a fresh draw of 32 random bytes).  A reset-password call with that
    secret and a new password before the expiry instant succeeds and gives
    the account the new password; a second call with the same secret fails
    with "Invalid or expired password reset token."; and a call at or after
    the expiry instant fails with the same error and changes nothing. *)
Theorem reset_token_redeems_exactly_once
    (db : table) (e0 : env) (email : string)
    (account : User.t) (others : list User.t) :
  email <> "" ->
  List.length (randomBytes e0) = 32%nat ->
  select_by_email email db = account :: others ->
  fingerprint_unused (hashedResetToken_of e0) db ->
  let secret := resetToken_of e0 in
  let issued := forgot_password e0 (Some email) db in
  outcome issued = inr forgot_password_sent
  /\ (forall (e1 : env) (newPassword : string),
        newPassword <> "" ->
        now e1 < now e0 + 3600000 ->
        let redeemed :=
          reset_password e1 (Some secret) (Some newPassword) (final issued) in
        outcome redeemed = inr password_reset_ok
        /\ (forall u, In u (final redeemed) ->
                      User.id u = User.id account ->
                      User.password u = bcrypt_hash newPassword 10 (salt e1)
                      /\ User.resetToken u = None
                      /\ User.resetTokenExpiry u = None)
        /\ (forall (e2 : env) (newPassword' : string),
              newPassword' <> "" ->
              let again :=
                reset_password e2 (Some secret) (Some newPassword')
                  (final redeemed) in
              outcome again = inr invalid_or_expired_token
              /\ final again = final redeemed))
  /\ (forall (e1 : env) (newPassword : string),
        newPassword <> "" ->
        now e0 + 3600000 <= now e1 ->
        let late :=
          reset_password e1 (Some secret) (Some newPassword) (final issued) in
        outcome late = inr invalid_or_expired_token
        /\ final late = final issued).
Proof.
  intros Hemail Hlen Hsel Hfresh secret issued.
  assert (Hsecret : secret <> "").
  { apply toString_hex_nonempty. intros E. rewrite E in Hlen. discriminate. }
  assert (Hin : In account db).
  { apply filter_head in Hsel. tauto. }
  subst issued. rewrite (forgot_password_hit e0 email db account others Hemail Hsel).
  cbn [outcome final].
  split; [reflexivity|]. split.
  - intros e1 newPassword Hpw Hlive.
    destruct (select_by_id_nonempty account db Hin) as [v [rest [Hv Hvid]]].
    assert (Hlookup :
      select_by_reset_token (sha256_hex secret) (now e1)
        (update_rows (issue_sets (hashedResetToken_of e0) (tokenExpiry_of e0))
           (User.id account) db)
      = assign_all (issue_sets (hashedResetToken_of e0) (tokenExpiry_of e0)) v
        :: map (assign_all (issue_sets (hashedResetToken_of e0) (tokenExpiry_of e0)))
             rest).
    { change (sha256_hex secret) with (hashedResetToken_of e0).
      rewrite select_issued_live by assumption. rewrite Hv. reflexivity. }
    rewrite (reset_password_hit e1 secret newPassword _ _ _ Hsecret Hpw Hlookup).
    cbn [outcome final]. rewrite assign_all_id, Hvid.
    split; [reflexivity|]. split.
    + intros u Hu Hid. apply (redeemed_rows _ _ _ u Hu Hid).
    + intros e2 newPassword' Hpw'.
      rewrite reset_password_miss; [split; reflexivity | assumption | assumption |].
      apply unused_select_nil. apply redeemed_unused. exact Hfresh.
  - intros e1 newPassword Hpw Hlate.
    rewrite reset_password_miss; [split; reflexivity | assumption | assumption |].
    apply select_issued_expired; assumption.
Qed.

End ResetToken.

(* ================================================================= *)
(** ** A second forgot-password request replaces the first token *)

Lemma assign_all_email (sets : list assignment) (u : User.t) :
  User.email (assign_all sets u) = User.email u.
Proof.
  unfold assign_all. revert u.
  induction sets as [|a sets IH]; intros u; simpl; [reflexivity|].
  rewrite IH. destruct a; reflexivity.
Qed.

(** No [UPDATE] of the server assigns [email], so selecting by email
    commutes with it. *)
Lemma select_by_email_update (email : string) (sets : list assignment)
    (uid : Z) (db : table) :
  select_by_email email (update_rows sets uid db)
  = update_rows sets uid (select_by_email email db).
Proof.
  unfold select_by_email, update_rows.
  induction db as [|u db IH]; [reflexivity|].
  cbn [map filter].
  replace (User.email (if User.id u =? uid then assign_all sets u else u))
    with (User.email u).
  - destruct (User.email u =? email)%string; cbn [map]; rewrite IH; reflexivity.
  - destruct (User.id u =? uid); [rewrite assign_all_email|]; reflexivity.
Qed.

Section Reissue.

Context {L : Libraries}.

(** C10.  After a second forgot-password request for the same email the
    account holds the second fingerprint and expiry only, and a
    reset-password call presenting the first secret fails with "Invalid or
    expired password reset token." whenever it is made. *)
Theorem second_request_overwrites_first
    (db : table) (e1 e2 : env) (email : string)
    (account : User.t) (others : list User.t) :
  email <> "" ->
  List.length (randomBytes e1) = 32%nat ->
  select_by_email email db = account :: others ->
  fingerprint_unused (hashedResetToken_of e1) db ->
  hashedResetToken_of e1 <> hashedResetToken_of e2 ->
  let first := forgot_password e1 (Some email) db in
  let second := forgot_password e2 (Some email) (final first) in
  (forall u, In u (final second) ->
             User.id u = User.id account ->
             User.resetToken u = Some (hashedResetToken_of e2)
             /\ User.resetTokenExpiry u = Some (tokenExpiry_of e2))
  /\ (forall (e3 : env) (newPassword : string),
        newPassword <> "" ->
        let stale :=
          reset_password e3 (Some (resetToken_of e1)) (Some newPassword)
            (final second) in
        outcome stale = inr invalid_or_expired_token
        /\ final stale = final second).
Proof.
  intros Hemail Hlen Hsel Hfresh Hne first second.
  assert (Hsecret : resetToken_of e1 <> "").
  { apply toString_hex_nonempty. intros E. rewrite E in Hlen. discriminate. }
  subst first second.
  rewrite (forgot_password_hit e1 email db account others Hemail Hsel).
  cbn [final].
  set (db1 := update_rows _ (User.id account) db).
  assert (Hsel1 : exists account1 others1,
             select_by_email email db1 = account1 :: others1
             /\ User.id account1 = User.id account).
  { subst db1. rewrite select_by_email_update, Hsel.
    unfold update_rows. cbn [map]. eexists. eexists. split; [reflexivity|].
    destruct (User.id account =? User.id account);
      [apply assign_all_id | reflexivity]. }
  destruct Hsel1 as [account1 [others1 [Hsel1 Hid1]]].
  rewrite (forgot_password_hit e2 email db1 account1 others1 Hemail Hsel1).
  cbn [final]. rewrite Hid1. split.
  - intros u Hu Hid. apply in_update_rows in Hu. destruct Hu as [v [_ ->]].
    destruct (User.id v =? User.id account) eqn:E.
    + split; reflexivity.
    + apply Z.eqb_neq in E. contradiction.
  - intros e3 newPassword Hpw.
    rewrite reset_password_miss; [split; reflexivity | assumption | assumption |].
    apply unused_select_nil. subst db1.
    apply reissued_unused; assumption.
Qed.

End Reissue.

(* ================================================================= *)
(** ** Change-password frames the reset-token columns *)

Lemma update_password_frame (h : string) (uid : Z) (db : table) :
  map besides_password (update_rows [SetPassword h] uid db)
  = map besides_password db.
Proof.
  unfold update_rows. rewrite map_map. apply map_ext. intros u.
  destruct (User.id u =? uid); reflexivity.
Qed.

Lemma reset_row_matches_frame (fp : string) (clock : Z) (u v : User.t) :
  besides_password u = besides_password v ->
  reset_row_matches fp clock u = reset_row_matches fp clock v.
Proof.
  intros H. unfold reset_row_matches.
  assert (Ht : User.resetToken u = User.resetToken v).
  { apply (f_equal User.resetToken) in H. exact H. }
  assert (Hx : User.resetTokenExpiry u = User.resetTokenExpiry v).
  { apply (f_equal User.resetTokenExpiry) in H. exact H. }
  rewrite Ht, Hx. reflexivity.
Qed.

(** Tables that agree besides the password select the same number of rows
    for a reset token. *)
Lemma select_by_reset_token_frame (fp : string) (clock : Z) (db db' : table) :
  map besides_password db' = map besides_password db ->
  map besides_password (select_by_reset_token fp clock db')
  = map besides_password (select_by_reset_token fp clock db).
Proof.
  unfold select_by_reset_token. revert db'.
  induction db as [|u db IH]; intros [|u' db'] H; try discriminate;
    [reflexivity|].
  cbn [map] in H. apply cons_eq_inv in H. destruct H as [Hu Hdb].
  cbn [filter].
  rewrite (reset_row_matches_frame fp clock u' u Hu).
  destruct (reset_row_matches fp clock u); cbn [map];
    [rewrite Hu; f_equal|]; apply IH; exact Hdb.
Qed.

Section ChangePassword.

Context {L : Libraries}.

(** A change-password that answers 200 ran exactly one statement, the
    [UPDATE] of the password column of the caller's row. *)
Lemma change_password_success (e : env) (req_user : Claims.t)
    (oldPassword newPassword : option string) (db : table) :
  outcome (change_password e req_user oldPassword newPassword db)
  = inr password_updated ->
  exists user rest,
    select_by_id (Claims.id req_user) db = user :: rest
    /\ bcrypt_compare (field_value oldPassword) (User.password user) = true
    /\ change_password e req_user oldPassword newPassword db
       = let db' :=
           update_rows
             [SetPassword (bcrypt_hash (field_value newPassword) 10 (salt e))]
             (User.id user) db in
         mkRun (inr password_updated) db' [db'].
Proof.
  unfold change_password.
  destruct (falsy oldPassword || falsy newPassword); [discriminate|].
  run_sql.
  destruct (select_by_id (Claims.id req_user) db) as [|user rest] eqn:Hsel;
    [discriminate|].
  destruct (bcrypt_compare (field_value oldPassword) (User.password user))
    eqn:Hcmp; [|discriminate].
  cbn [negb]. run_sql.
  rewrite exec_update_no_username by reflexivity.
  intros _. exists user, rest. repeat split. exact Hcmp.
Qed.

(** C8.  A successful change-password changes no column but [password]; in
    particular every reset fingerprint and expiry stays as it was, and a
    reset secret that was outstanding and unexpired for an account still
    redeems successfully at any instant before its expiry. *)
Theorem change_password_keeps_reset_token
    (e : env) (req_user : Claims.t) (oldPassword newPassword : option string)
    (db : table) :
  let changed := change_password e req_user oldPassword newPassword db in
  outcome changed = inr password_updated ->
  map besides_password (final changed) = map besides_password db
  /\ (forall (account : User.t) (secret : string) (expiry : Z),
        In account db ->
        User.resetToken account = Some (sha256_hex secret) ->
        User.resetTokenExpiry account = Some expiry ->
        secret <> "" ->
        forall (e1 : env) (password' : string),
          password' <> "" ->
          now e1 < expiry ->
          outcome (reset_password e1 (Some secret) (Some password')
                     (final changed))
          = inr password_reset_ok).
Proof.
  intros changed Hok. subst changed.
  destruct (change_password_success e req_user oldPassword newPassword db Hok)
    as [user [rest [_ [_ Hrun]]]].
  rewrite Hrun. cbn [final]. clear Hrun Hok.
  split; [apply update_password_frame|].
  intros account secret expiry Hin Htok Hexp Hsecret e1 password' Hpw Hlive.
  set (db' := update_rows _ (User.id user) db).
  assert (Hlen : select_by_reset_token (sha256_hex secret) (now e1) db' <> []).
  { intros Hnil.
    pose proof (select_by_reset_token_frame (sha256_hex secret) (now e1) db db'
                  (update_password_frame _ _ _)) as Hframe.
    rewrite Hnil in Hframe. cbn [map] in Hframe.
    symmetry in Hframe. apply map_eq_nil in Hframe.
    assert (Hm : reset_row_matches (sha256_hex secret) (now e1) account = false).
    { apply (proj1 (filter_nil_iff _ db) Hframe account Hin). }
    unfold reset_row_matches in Hm. rewrite Htok, Hexp in Hm.
    cbn [opt_string_eqb] in Hm. rewrite String.eqb_refl in Hm.
    apply Z.ltb_lt in Hlive. rewrite Hlive in Hm. discriminate. }
  destruct (select_by_reset_token (sha256_hex secret) (now e1) db')
    as [|hit more] eqn:Hsel; [congruence|].
  rewrite (reset_password_hit e1 secret password' db' hit more Hsecret Hpw Hsel).
  reflexivity.
Qed.

End ChangePassword.

(* ================================================================= *)
(** ** Reset-password writes once *)

Section ResetAtomic.

Context {L : Libraries}.

(** The two ways a run of reset-password can go. *)
Lemma reset_password_cases
    (e : env) (token newPassword : option string) (db : table) :
  let r := reset_password e token newPassword db in
  let h := bcrypt_hash (field_value newPassword) 10 (salt e) in
  (outcome r <> inr password_reset_ok /\ written r = [] /\ final r = db)
  \/ (exists user,
        In user db
        /\ outcome r = inr password_reset_ok
        /\ written r = [final r]
        /\ final r = update_rows (redeem_sets h) (User.id user) db).
Proof.
  intros r h. subst r. unfold reset_password.
  destruct (falsy token || falsy newPassword).
  - left. repeat split. discriminate.
  - run_sql.
    destruct (select_by_reset_token (sha256_hex (field_value token)) (now e) db)
      as [|user rest] eqn:Hsel.
    + left. repeat split. discriminate.
    + right. exists user. run_sql.
      rewrite exec_update_no_username by reflexivity. cbn [outcome final written].
      apply filter_head in Hsel. destruct Hsel as [Hin _].
      repeat split. exact Hin.
Qed.

Lemma update_rows_elsewhere (sets : list assignment) (uid : Z) (db : table)
    (u : User.t) :
  In u (update_rows sets uid db) -> User.id u <> uid -> In u db.
Proof.
  intros Hu Hid. apply in_update_rows in Hu. destruct Hu as [v [Hv ->]].
  destruct (User.id v =? uid) eqn:E; [|exact Hv].
  rewrite assign_all_id in Hid. apply Z.eqb_eq in E. contradiction.
Qed.

(** C9.  A run of reset-password either writes nothing, or performs exactly
    one statement: the table goes from its initial state straight to a
    state in which the account has the new password and neither reset
    column, every other row being untouched.  No state in between exists in
    which the password is new and the fingerprint or expiry still set. *)
Theorem reset_password_single_update
    (e : env) (token newPassword : option string) (db : table) :
  let r := reset_password e token newPassword db in
  let h := bcrypt_hash (field_value newPassword) 10 (salt e) in
  (outcome r <> inr password_reset_ok /\ written r = [] /\ final r = db)
  \/ (exists user,
        In user db
        /\ outcome r = inr password_reset_ok
        /\ written r = [final r]
        /\ (forall u, In u (final r) ->
                      User.id u = User.id user ->
                      User.password u = h
                      /\ User.resetToken u = None
                      /\ User.resetTokenExpiry u = None)
        /\ (forall u, In u (final r) ->
                      User.id u <> User.id user -> In u db)).
Proof.
  intros r h.
  destruct (reset_password_cases e token newPassword db)
    as [Hnone | [user [Hin [Hok [Hwritten Hfinal]]]]].
  - left. exact Hnone.
  - right. exists user. fold r in Hok, Hwritten, Hfinal. fold h in Hfinal.
    split; [exact Hin|]. split; [exact Hok|]. split; [exact Hwritten|].
    rewrite Hfinal. split.
    + intros u Hu Hid. apply (redeemed_rows h (User.id user) db u Hu Hid).
    + intros u Hu Hid. apply (update_rows_elsewhere _ _ _ u Hu Hid).
Qed.

End ResetAtomic.

(* ================================================================= *)
(** ** The two reset columns are set and cleared together *)

Lemma maintains_ret {A} (I : table -> Prop) (a : A) : maintains I (ret a).
Proof.
  intros db H. split; [exact H | constructor].
Qed.

Lemma maintains_throw {A} (I : table -> Prop) (err : error) :
  maintains I (@throw A err).
Proof.
  intros db H. split; [exact H | constructor].
Qed.

Lemma maintains_query {A} (I : table -> Prop) (q : table -> A) :
  maintains I (query q).
Proof.
  intros db H. split; [exact H | constructor].
Qed.

Lemma maintains_bind {A B} (I : table -> Prop) (m : Sql A) (k : A -> Sql B) :
  maintains I m -> (forall a, maintains I (k a)) -> maintains I (bind m k).
Proof.
  intros Hm Hk db H. unfold bind.
  destruct (Hm db H) as [Hfinal Hwritten].
  destruct (outcome (m db)) as [err|a]; cbn [final written].
  - split; assumption.
  - destruct (Hk a (final (m db)) Hfinal) as [Hfinal' Hwritten'].
    split; [exact Hfinal'|]. apply Forall_app. split; assumption.
Qed.

Lemma maintains_try_catch {A} (I : table -> Prop) (m : Sql A)
    (handler : error -> A) :
  maintains I m -> maintains I (try_catch m handler).
Proof.
  intros Hm db H. unfold try_catch.
  destruct (Hm db H) as [Hfinal Hwritten].
  destruct (outcome (m db)); cbn [final written]; split; assumption.
Qed.

Lemma maintains_execute (I : table -> Prop) (clock : Z) (s : stmt) :
  (forall db db', I db -> exec_stmt clock s db = inr db' -> I db') ->
  maintains I (execute clock s).
Proof.
  intros Hs db H. unfold execute.
  destruct (exec_stmt clock s db) as [err|db'] eqn:E; cbn [final written].
  - split; [exact H | constructor].
  - pose proof (Hs db db' H E) as H'.
    split; [exact H' | constructor; [exact H' | constructor]].
Qed.

Lemma update_rows_paired (sets : list assignment) (uid : Z) (db : table) :
  (forall u, reset_fields_paired u = true ->
             reset_fields_paired (assign_all sets u) = true) ->
  table_paired db -> table_paired (update_rows sets uid db).
Proof.
  intros Hsets Hdb. unfold table_paired, update_rows.
  apply Forall_map. apply (Forall_impl _ (P := fun u => reset_fields_paired u = true));
    [|exact Hdb].
  intros u Hu. destruct (User.id u =? uid); [apply Hsets|]; exact Hu.
Qed.

Lemma exec_update_paired (clock : Z) (sets : list assignment) (uid : Z)
    (db db' : table) :
  (forall u, reset_fields_paired u = true ->
             reset_fields_paired (assign_all sets u) = true) ->
  table_paired db ->
  exec_stmt clock (UPDATE sets uid) db = inr db' ->
  table_paired db'.
Proof.
  intros Hsets Hdb. unfold exec_stmt.
  destruct (violates_unique (UPDATE sets uid) db); [discriminate|].
  intros E. injection E as <-. apply update_rows_paired; assumption.
Qed.

Lemma exec_insert_paired (clock : Z) (email password : string) (flag : Z)
    (db db' : table) :
  table_paired db ->
  exec_stmt clock (INSERT email password flag) db = inr db' ->
  table_paired db'.
Proof.
  intros Hdb. unfold exec_stmt.
  destruct (violates_unique (INSERT email password flag) db); [discriminate|].
  intros E. injection E as <-. apply Forall_app. split; [exact Hdb|].
  constructor; [reflexivity | constructor].
Qed.

(** Step through a handler body, one construct at a time. *)
Ltac maintains_step :=
  match goal with
  | |- maintains _ (ret _) => apply maintains_ret
  | |- maintains _ (throw _) => apply maintains_throw
  | |- maintains _ (query _) => apply maintains_query
  | |- maintains _ (try_catch _ _) => apply maintains_try_catch
  | |- maintains _ (bind _ _) => apply maintains_bind; [|intros ?]
  | |- maintains _ (if ?c then _ else _) => destruct c
  | |- maintains _ (match ?x with _ => _ end) => destruct x
  | |- maintains _ (execute _ (INSERT _ _ _)) =>
      apply maintains_execute; intros ? ? ? ?;
      eapply exec_insert_paired; eassumption
  | |- maintains _ (execute _ (UPDATE _ _)) =>
      apply maintains_execute; intros ? ? ? ?;
      eapply exec_update_paired; [|eassumption|eassumption];
      let u := fresh "u" in
      intros u; unfold reset_fields_paired; destruct u as [? ? ? ? ? ? ? [?|] [?|] ?];
      cbn; congruence
  end.

Section Pairing.

Context {L : Libraries}.

Lemma app_maintains_pairing (e : env) (r : request) :
  maintains table_paired (app e r).
Proof.
  destruct r; unfold app, protected, register, login, change_password,
    forgot_password, reset_password, onboarding;
    repeat maintains_step.
Qed.

(** Every table the server can reach from the empty one has the two columns
    paired in every row. *)
Lemma serve_maintains_pairing (reqs : list (env * request)) (db : table) :
  table_paired db -> table_paired (serve reqs db).
Proof.
  revert db. induction reqs as [|[e r] reqs IH]; intros db Hdb; [exact Hdb|].
  cbn [serve]. apply IH. apply (app_maintains_pairing e r db Hdb).
Qed.


End Pairing.

(* ================================================================= *)
(** ** Login does not reveal whether an account exists *)

Section Login.

Context {L : Libraries}.

Lemma login_no_account (e : env) (email password : string) (db : table) :
  email <> "" -> password <> "" ->
  select_by_email email db = [] ->
  login e (Some email) (Some password) db = mkRun (inr invalid_credentials) db [].
Proof.
  intros He Hp Hsel. unfold login.
  rewrite (falsy_Some email He), (falsy_Some password Hp).
  run_sql. rewrite Hsel. reflexivity.
Qed.

Lemma login_wrong_password (e : env) (email password : string) (db : table)
    (user : User.t) (rest : list User.t) :
  email <> "" -> password <> "" ->
  select_by_email email db = user :: rest ->
  bcrypt_compare password (User.password user) = false ->
  login e (Some email) (Some password) db = mkRun (inr invalid_credentials) db [].
Proof.
  intros He Hp Hsel Hcmp. unfold login.
  rewrite (falsy_Some email He), (falsy_Some password Hp).
  run_sql. rewrite Hsel, Hcmp. reflexivity.
Qed.

Lemma login_success (e : env) (email password : string) (db : table)
    (user : User.t) (rest : list User.t) :
  email <> "" -> password <> "" ->
  select_by_email email db = user :: rest ->
  bcrypt_compare password (User.password user) = true ->
  login e (Some email) (Some password) db
  = mkRun (inr (mkResponse 200
                  (JObj [("user", without_password user);
                         ("token",
                          JStr (jwt_sign (User.id user) JWT_SECRET "1h" (now e)))])))
      db [].
Proof.
  intros He Hp Hsel Hcmp. unfold login.
  rewrite (falsy_Some email He), (falsy_Some password Hp).
  run_sql. rewrite Hsel, Hcmp. reflexivity.
Qed.

(** X19.  With email and password both strings, a login attempt with an
    email that matches no account and a login attempt with the email of an
    existing account and a password that does not match it are answered
    identically: status 401 and the message "Invalid email or password",
    with no effect on the table. *)
Theorem login_failures_identical
    (db : table) (e1 e2 : env) (email1 password1 email2 password2 : string)
    (account : User.t) (others : list User.t) :
  email1 <> "" -> password1 <> "" ->
  email2 <> "" -> password2 <> "" ->
  select_by_email email1 db = [] ->
  select_by_email email2 db = account :: others ->
  bcrypt_compare password2 (User.password account) = false ->
  login e1 (Some email1) (Some password1) db
  = login e2 (Some email2) (Some password2) db
  /\ outcome (login e1 (Some email1) (Some password1) db)
     = inr (message_response 401 "Invalid email or password").
Proof.
  intros He1 Hp1 He2 Hp2 Hnone Hsome Hcmp.
  rewrite (login_no_account e1 email1 password1 db He1 Hp1 Hnone).
  rewrite (login_wrong_password e2 email2 password2 db account others
             He2 Hp2 Hsome Hcmp).
  split; reflexivity.
Qed.

(** On a string password, or none, [login_raw] is [login]. *)
Lemma login_raw_string (e : env) (email password : option string) (db : table) :
  login_raw e email (option_map JStr password) db = login e email password db.
Proof.
  unfold login_raw, login. destruct password as [s|]; cbn [option_map].
  - change (falsy_value (Some (JStr s))) with (falsy (Some s)).
    destruct (falsy email || falsy (Some s)); [reflexivity|].
    run_sql.
    destruct (select_by_email (field_value email) db) as [|user rest];
      [reflexivity|].
    unfold bcrypt_compare_value. run_sql.
    destruct (bcrypt_compare s (User.password user)); reflexivity.
  - change (falsy_value None) with (falsy None). cbn [falsy].
    rewrite orb_true_r. reflexivity.
Qed.

(** C3.  The code breaks the claim on a password that is not a string.  For
    a truthy JSON value that is no string (a number, say), a login attempt
    with an email that matches no account is answered 401 "Invalid email or
    password", the lookup returning before the password is looked at; a
    login attempt with the email of an existing account reaches
    [bcrypt.compare], which throws, and is answered 500 "An error occurred
    during login".  The two responses differ, so they tell whether the
    account exists. *)
Theorem login_reveals_account_to_non_string_password
    (db : table) (e1 e2 : env) (email1 email2 : string) (password : json)
    (account : User.t) (others : list User.t) :
  email1 <> "" -> email2 <> "" ->
  falsy_value (Some password) = false ->
  (forall s, password <> JStr s) ->
  select_by_email email1 db = [] ->
  select_by_email email2 db = account :: others ->
  login_raw e1 (Some email1) (Some password) db
  = mkRun (inr (message_response 401 "Invalid email or password")) db []
  /\ login_raw e2 (Some email2) (Some password) db
     = mkRun (inr (message_response 500 "An error occurred during login")) db []
  /\ outcome (login_raw e1 (Some email1) (Some password) db)
     <> outcome (login_raw e2 (Some email2) (Some password) db).
Proof.
  intros He1 He2 Htruthy Hnostr Hnone Hsome.
  assert (H1 : login_raw e1 (Some email1) (Some password) db
               = mkRun (inr (message_response 401 "Invalid email or password"))
                   db []).
  { unfold login_raw. rewrite (falsy_Some email1 He1), Htruthy.
    run_sql. rewrite Hnone. reflexivity. }
  assert (H2 : login_raw e2 (Some email2) (Some password) db
               = mkRun (inr (message_response 500
                               "An error occurred during login")) db []).
  { unfold login_raw. rewrite (falsy_Some email2 He2), Htruthy.
    run_sql. rewrite Hsome. unfold bcrypt_compare_value.
    destruct password as [|n|s|fields]; try reflexivity.
    exfalso. apply (Hnostr s). reflexivity. }
  rewrite H1, H2. split; [reflexivity|]. split; [reflexivity|].
  cbn [outcome]. discriminate.
Qed.

End Login.

(* ================================================================= *)
(** ** Session tokens through [authMiddleware] *)

Section SessionToken.

Context {L : Libraries}.

Lemma authMiddleware_rejects (clock : Z) (header : string) (err : jwt_error) :
  jwt_verify (replace "Bearer " "" header) JWT_SECRET clock = inl err ->
  authMiddleware clock (Some header) = inl auth_failed.
Proof.
  intros H. unfold authMiddleware. rewrite H. reflexivity.
Qed.

(** C2, as the code has it.  Let login succeed for an account and return a
    session token.  Presented as [Bearer <token>] while fewer than 3600
    seconds have passed, the token resolves to the account's id.  From the
    3600th second on it is rejected with 401 "Authentication failed."; and
    with the very same response are rejected the token with any one bit
    flipped, every token that was not signed with the server's secret
    (malformed or forged), and a request without the header.  The answer
    does not tell an expired token from an invalid one.  What the
    signature guarantees is [jsonwebtoken]'s: [jwt_contract] and
    [jwt_integrity]. *)
Theorem session_token_verifies_or_401
    (db : table) (e : env) (email password : string)
    (account : User.t) (others : list User.t) :
  jwt_contract L ->
  jwt_integrity L ->
  email <> "" -> password <> "" ->
  select_by_email email db = account :: others ->
  bcrypt_compare password (User.password account) = true ->
  exists token,
    outcome (login e (Some email) (Some password) db)
    = inr (mkResponse 200
             (JObj [("user", without_password account); ("token", JStr token)]))
    /\ (forall clock,
          clock / 1000 < now e / 1000 + 3600 ->
          exists req_user,
            authMiddleware clock (Some ("Bearer " ++ token)) = inr req_user
            /\ Claims.id req_user = User.id account)
    /\ (forall clock,
          now e / 1000 + 3600 <= clock / 1000 ->
          authMiddleware clock (Some ("Bearer " ++ token)) = inl auth_failed)
    /\ (forall clock (i b : nat),
          (i < String.length token)%nat -> (b < 8)%nat ->
          authMiddleware clock (Some ("Bearer " ++ flip_bit i b token))
          = inl auth_failed)
    /\ (forall clock (other : string),
          (forall payload_id expiresIn clock0,
             other <> jwt_sign payload_id JWT_SECRET expiresIn clock0) ->
          authMiddleware clock (Some ("Bearer " ++ other)) = inl auth_failed)
    /\ (forall clock, authMiddleware clock None = inl auth_failed).
Proof.
  intros Hjwt [Hgenuine Hflip] He Hp Hsel Hcmp.
  exists (jwt_sign (User.id account) JWT_SECRET "1h" (now e)).
  rewrite (login_success e email password db account others He Hp Hsel Hcmp).
  split; [reflexivity|]. split; [|split; [|split; [|split]]].
  - intros clock Hlive.
    exists (Claims.mk (User.id account) (now e / 1000) (now e / 1000 + 3600)).
    unfold authMiddleware. rewrite replace_Bearer, Hjwt.
    apply Z.ltb_lt in Hlive. rewrite Hlive. split; reflexivity.
  - intros clock Hlate.
    unfold authMiddleware. rewrite replace_Bearer, Hjwt.
    apply Z.ltb_ge in Hlate. rewrite Hlate. reflexivity.
  - intros clock i b Hi Hb.
    apply (authMiddleware_rejects clock _ JsonWebTokenError).
    rewrite replace_Bearer. apply Hflip; assumption.
  - intros clock other Hforeign. unfold authMiddleware.
    rewrite replace_Bearer.
    destruct (jwt_verify other JWT_SECRET clock) as [err|claims] eqn:Hv;
      [reflexivity|].
    destruct (Hgenuine other JWT_SECRET clock claims Hv) as [x [c0 Hsigned]].
    exfalso. apply (Hforeign _ _ _ Hsigned).
  - intros clock. reflexivity.
Qed.

End SessionToken.

(* ================================================================= *)
(** ** Where the reset secret and its fingerprint go *)




Section SecretFlow.

Context {L : Libraries}.





End SecretFlow.

(* ================================================================= *)
(** ** The OAuth account link has no route *)

Lemma filter_nil_existsb {A} (f : A -> bool) (l : list A) :
  filter f l = [] -> existsb f l = false.
Proof.
  intros H. induction l as [|a l IH]; [reflexivity|].
  simpl in *. destruct (f a); [discriminate|]. apply IH. exact H.
Qed.

(** C6.  The code lacks the operation.  No route of [server.js] matches
    [/api/auth/google], under any method: the request the NextAuth [jwt]
    callback sends after a Google sign-in runs no handler.  Express answers
    404, the table is left as it was, no account is created and no session
    token is issued. *)
Theorem google_account_link_is_not_routed
    (method : string) (handler : route -> Sql response) (db : table) :
  dispatch method "/api/auth/google" = None
  /\ express method "/api/auth/google" handler db
     = mkRun (inr (not_found method "/api/auth/google")) db []
  /\ status (not_found method "/api/auth/google") = 404.
Proof.
  assert (H : dispatch method "/api/auth/google" = None).
  { unfold dispatch. cbn. rewrite !andb_false_r. reflexivity. }
  split; [exact H|]. split; [|reflexivity].
  unfold express. rewrite H. reflexivity.
Qed.

(* ================================================================= *)
(** ** The executable instance meets the token contract *)

Lemma dec_enc_pos (p : positive) (rest : string) :
  Toy.dec_pos (Toy.enc_pos p ++ rest) = Some (p, rest).
Proof.
  induction p as [q IH|q IH|]; simpl; try rewrite IH; reflexivity.
Qed.

Lemma dec_enc_Z (z : Z) (rest : string) :
  Toy.dec_Z (Toy.enc_Z z ++ rest) = Some (z, rest).
Proof.
  destruct z as [|p|p]; simpl; try rewrite dec_enc_pos; reflexivity.
Qed.

Lemma string_app_assoc (a b c : string) : ((a ++ b) ++ c = a ++ (b ++ c))%string.
Proof.
  induction a as [|x a IH]; [reflexivity|]. cbn. rewrite IH. reflexivity.
Qed.

Lemma string_length_app (a b : string) :
  String.length (a ++ b) = (String.length a + String.length b)%nat.
Proof.
  induction a as [|x a IH]; [reflexivity|]. cbn. rewrite IH. reflexivity.
Qed.

Lemma string_app_inj (a b c d : string) :
  String.length a = String.length c ->
  (a ++ b = c ++ d)%string -> a = c /\ b = d.
Proof.
  revert c. induction a as [|x a IH]; intros [|y c] Hlen H;
    try discriminate.
  - split; [reflexivity | exact H].
  - cbn in Hlen, H. injection Hlen as Hlen. injection H as Hx H.
    destruct (IH c Hlen H) as [-> ->]. subst y. split; reflexivity.
Qed.

Lemma flip_ascii_changes (b : nat) (c : ascii) :
  (b < 8)%nat -> flip_ascii b c <> c.
Proof.
  intros Hb. destruct c as [b0 b1 b2 b3 b4 b5 b6 b7].
  do 8 (destruct b as [|b];
        [cbn; intros H; injection H; intros;
         repeat match goal with
                | E : negb ?x = ?x |- _ => destruct x; discriminate
                end|]).
  lia.
Qed.

Lemma flip_bit_length (i b : nat) (s : string) :
  String.length (flip_bit i b s) = String.length s.
Proof.
  revert i. induction s as [|c s IH]; intros i; [reflexivity|].
  destruct i as [|i]; cbn; [reflexivity | rewrite IH; reflexivity].
Qed.

Lemma flip_bit_changes (i b : nat) (s : string) :
  (i < String.length s)%nat -> (b < 8)%nat -> flip_bit i b s <> s.
Proof.
  revert i. induction s as [|c s IH]; intros i Hi Hb; cbn in Hi; [lia|].
  destruct i as [|i]; cbn; intros H; injection H.
  - apply flip_ascii_changes. exact Hb.
  - apply IH; [lia | exact Hb].
Qed.

Lemma flip_bit_app_l (i b : nat) (x y : string) :
  (i < String.length x)%nat ->
  flip_bit i b (x ++ y) = (flip_bit i b x ++ y)%string.
Proof.
  revert i. induction x as [|c x IH]; intros i Hi; cbn in Hi; [lia|].
  destruct i as [|i]; cbn; [reflexivity|]. rewrite IH by lia. reflexivity.
Qed.

Lemma flip_bit_app_r (i b : nat) (x y : string) :
  (String.length x <= i)%nat ->
  flip_bit i b (x ++ y) = (x ++ flip_bit (i - String.length x) b y)%string.
Proof.
  revert i. induction x as [|c x IH]; intros i Hi; cbn in Hi.
  - cbn. rewrite Nat.sub_0_r. reflexivity.
  - destruct i as [|i]; [lia|]. cbn. rewrite IH by lia. reflexivity.
Qed.

(** A doubled string with one bit flipped is no doubled string. *)
Lemma flip_bit_doubled (i b : nat) (p q : string) :
  (i < String.length (p ++ p))%nat -> (b < 8)%nat ->
  flip_bit i b (p ++ p) <> (q ++ q)%string.
Proof.
  intros Hi Hb H.
  assert (Hlen : String.length p = String.length q).
  { apply (f_equal String.length) in H.
    rewrite flip_bit_length, !string_length_app in H. lia. }
  rewrite string_length_app in Hi.
  destruct (Nat.lt_ge_cases i (String.length p)) as [Hl|Hr].
  - rewrite flip_bit_app_l in H by exact Hl.
    apply string_app_inj in H; [|rewrite flip_bit_length; exact Hlen].
    destruct H as [H1 H2]. rewrite <- H2 in H1.
    apply (flip_bit_changes i b p Hl Hb H1).
  - rewrite flip_bit_app_r in H by exact Hr.
    apply string_app_inj in H; [|exact Hlen].
    destruct H as [H1 H2]. rewrite <- H1 in H2.
    apply (flip_bit_changes (i - String.length p) b p); [lia | exact Hb | exact H2].
Qed.

(** What [Toy.verify] does with a token in sealed form. *)
Lemma verify_sealed (i issued expires : Z) (secret : string) (clock : Z) :
  Toy.verify (Toy.sealed i issued expires secret) secret clock
  = if negb ((expires =? issued + 3600) || (expires =? issued + 0))
    then inl JsonWebTokenError
    else if expires <=? clock / 1000 then inl TokenExpiredError
    else inr (Claims.mk i issued expires).
Proof.
  unfold Toy.verify.
  assert (Hparse : forall rest,
             Toy.dec_Z ((Toy.enc_Z i ++ Toy.enc_Z issued ++ Toy.enc_Z expires
                         ++ secret) ++ rest)
             = Some (i, (Toy.enc_Z issued ++ Toy.enc_Z expires ++ secret ++ rest))%string).
  { intros rest. rewrite !string_app_assoc. apply dec_enc_Z. }
  unfold Toy.sealed at 1. cbv zeta. rewrite Hparse, !dec_enc_Z.
  rewrite String.eqb_refl. reflexivity.
Qed.

(** Whatever [Toy.verify] accepts is in sealed form, for the claims it
    returns, with one of the two spans [Toy.sign] stamps. *)
Lemma verify_accepts_sealed (token secret : string) (clock : Z)
    (claims : Claims.t) :
  Toy.verify token secret clock = inr claims ->
  token = Toy.sealed (Claims.id claims) (Claims.iat claims) (Claims.exp claims)
            secret
  /\ (Claims.exp claims = Claims.iat claims + 3600
      \/ Claims.exp claims = Claims.iat claims + 0).
Proof.
  unfold Toy.verify.
  destruct (Toy.dec_Z token) as [[i r1]|]; [|discriminate].
  destruct (Toy.dec_Z r1) as [[issued r2]|]; [|discriminate].
  destruct (Toy.dec_Z r2) as [[expires r3]|]; [|discriminate].
  destruct (String.eqb token (Toy.sealed i issued expires secret)) eqn:Eseal;
    [|discriminate].
  destruct ((expires =? issued + 3600) || (expires =? issued + 0)) eqn:Espan;
    [|discriminate].
  cbn [negb]. destruct (expires <=? clock / 1000); [discriminate|].
  intros H. injection H as <-. cbn [Claims.id Claims.iat Claims.exp].
  split; [apply String.eqb_eq; exact Eseal|].
  apply orb_true_iff in Espan. destruct Espan as [E|E]; apply Z.eqb_eq in E;
    [left | right]; exact E.
Qed.

(** ... and whatever is not in sealed form it refuses as invalid. *)
Lemma verify_not_sealed (token secret : string) (clock : Z) :
  (forall i issued expires, token <> Toy.sealed i issued expires secret) ->
  Toy.verify token secret clock = inl JsonWebTokenError.
Proof.
  intros Hnot. unfold Toy.verify.
  destruct (Toy.dec_Z token) as [[i r1]|]; [|reflexivity].
  destruct (Toy.dec_Z r1) as [[issued r2]|]; [|reflexivity].
  destruct (Toy.dec_Z r2) as [[expires r3]|]; [|reflexivity].
  destruct (String.eqb token (Toy.sealed i issued expires secret)) eqn:Eseal;
    [|reflexivity].
  apply String.eqb_eq in Eseal. exfalso. apply (Hnot _ _ _ Eseal).
Qed.

Lemma toy_jwt_contract : jwt_contract Toy.libraries.
Proof.
  intros payload_id secret clock clock' iat exp.
  cbn [jwt_verify jwt_sign Toy.libraries]. unfold Toy.sign.
  change (Toy.timespan "1h") with 3600. fold iat. fold exp. cbv zeta.
  rewrite verify_sealed. fold exp. rewrite Z.eqb_refl. cbn [orb negb].
  rewrite (Z.ltb_antisym exp (clock' / 1000)).
  destruct (exp <=? clock' / 1000); reflexivity.
Qed.

Lemma toy_jwt_integrity : jwt_integrity Toy.libraries.
Proof.
  split.
  - intros token secret clock claims Hv.
    cbn [jwt_verify jwt_sign Toy.libraries] in *.
    apply verify_accepts_sealed in Hv. destruct Hv as [-> Hspan].
    exists (if Claims.exp claims =? Claims.iat claims + 3600 then "1h" else "").
    exists (Claims.iat claims * 1000).
    unfold Toy.sign. cbv zeta. rewrite Z.div_mul by discriminate.
    destruct (Claims.exp claims =? Claims.iat claims + 3600) eqn:E.
    + apply Z.eqb_eq in E. rewrite E. reflexivity.
    + destruct Hspan as [H|H]; [rewrite H, Z.eqb_refl in E; discriminate|].
      rewrite H. reflexivity.
  - intros payload_id secret expiresIn clock0 clock i b Hi Hb.
    cbn [jwt_verify jwt_sign Toy.libraries] in *.
    apply verify_not_sealed. intros i' issued expires.
    revert Hi. unfold Toy.sign, Toy.sealed. cbv zeta. intros Hi.
    apply (flip_bit_doubled i b _ _ Hi Hb).
Qed.

(* ================================================================= *)
(** ** The theorems on a concrete run *)

Section Checks.

Import Run.
#[local] Existing Instance Toy.libraries.

Lemma db0_unused (e : env) : fingerprint_unused (hashedResetToken_of e) db0.
Proof.
  intros u [<-|[]]. discriminate.
Defined.

Lemma reset_token_redeems_exactly_once_witness :
  outcome (reset_password e1 (Some secret0) (Some "pw2") db1)
  = inr password_reset_ok
  /\ outcome (reset_password e2 (Some secret0) (Some "pw3") db2)
     = inr invalid_or_expired_token
  /\ outcome (reset_password e2 (Some secret0) (Some "pw2") db1)
     = inr invalid_or_expired_token.
Proof.
  destruct (reset_token_redeems_exactly_once db0 e0 "a@x.com" alice [])
    as [_ [Hlive Hlate]].
  - discriminate.
  - reflexivity.
  - reflexivity.
  - apply db0_unused.
  - destruct (Hlive e1 "pw2") as [Hok [_ Hagain]].
    + discriminate.
    + reflexivity.
    + split; [exact Hok|]. split.
      * apply (Hagain e2 "pw3"). discriminate.
      * apply (Hlate e2 "pw2"); [discriminate | discriminate].
Defined.

Lemma second_request_overwrites_first_witness :
  outcome (reset_password e2 (Some secret0) (Some "pw2")
             (final (forgot_password e1 (Some "a@x.com") db1)))
  = inr invalid_or_expired_token.
Proof.
  destruct (second_request_overwrites_first db0 e0 e1 "a@x.com" alice [])
    as [_ Hstale].
  - discriminate.
  - reflexivity.
  - reflexivity.
  - apply db0_unused.
  - intros H. vm_compute in H. discriminate.
  - apply (Hstale e2 "pw2"). discriminate.
Defined.

Lemma change_password_keeps_reset_token_witness :
  outcome
    (reset_password e1 (Some secret0) (Some "pw2")
       (final (change_password e1 (Claims.mk 1 1 3601) (Some "pw1")
                 (Some "pw9") db1)))
  = inr password_reset_ok.
Proof.
  destruct (change_password_keeps_reset_token e1 (Claims.mk 1 1 3601)
              (Some "pw1") (Some "pw9") db1) as [_ Hredeem].
  - reflexivity.
  - apply (Hredeem alice1 secret0 3601000).
    + left. reflexivity.
    + reflexivity.
    + reflexivity.
    + discriminate.
    + discriminate.
    + reflexivity.
Defined.

Lemma reset_password_single_update_witness :
  written (reset_password e1 (Some secret0) (Some "pw2") db1) = [db2].
Proof.
  destruct (reset_password_single_update e1 (Some secret0) (Some "pw2") db1)
    as [[Hno _] | [user [_ [_ [Hw _]]]]].
  - exfalso. apply Hno. reflexivity.
  - exact Hw.
Defined.


Lemma login_failures_identical_witness :
  login e0 (Some "nobody@x.com") (Some "pw1") db0
  = login e1 (Some "a@x.com") (Some "wrong") db0.
Proof.
  destruct (login_failures_identical db0 e0 e1 "nobody@x.com" "pw1"
              "a@x.com" "wrong" alice []) as [H _].
  - discriminate.
  - discriminate.
  - discriminate.
  - discriminate.
  - reflexivity.
  - reflexivity.
  - reflexivity.
  - exact H.
Defined.

Lemma login_reveals_account_to_non_string_password_witness :
  outcome (login_raw e0 (Some "nobody@x.com") (Some (JNum 12345)) db0)
  = inr (message_response 401 "Invalid email or password")
  /\ outcome (login_raw e0 (Some "a@x.com") (Some (JNum 12345)) db0)
     = inr (message_response 500 "An error occurred during login").
Proof.
  destruct (login_reveals_account_to_non_string_password db0 e0 e0
              "nobody@x.com" "a@x.com" (JNum 12345) alice [])
    as [H1 [H2 _]].
  - discriminate.
  - discriminate.
  - reflexivity.
  - intros s. discriminate.
  - reflexivity.
  - reflexivity.
  - rewrite H1, H2. split; reflexivity.
Defined.

Lemma session_token_verifies_or_401_witness :
  exists token,
    outcome (login e0 (Some "a@x.com") (Some "pw1") db0)
    = inr (mkResponse 200
             (JObj [("user", without_password alice); ("token", JStr token)]))
    /\ (exists req_user,
          authMiddleware 60000 (Some ("Bearer " ++ token)) = inr req_user
          /\ Claims.id req_user = 1)
    /\ authMiddleware 3601000 (Some ("Bearer " ++ token)) = inl auth_failed
    /\ authMiddleware 60000 (Some ("Bearer " ++ flip_bit 1 0 token))
       = inl auth_failed
    /\ authMiddleware 60000 (Some ("Bearer " ++ "not.a.token"))
       = inl auth_failed.
Proof.
  destruct (session_token_verifies_or_401 db0 e0 "a@x.com" "pw1" alice [])
    as [token [Hlogin [Hlive [Hlate [Hflip [Hother _]]]]]].
  - exact toy_jwt_contract.
  - exact toy_jwt_integrity.
  - discriminate.
  - discriminate.
  - reflexivity.
  - reflexivity.
  - assert (Htoken : token = session0).
    { change (outcome (login e0 (Some "a@x.com") (Some "pw1") db0))
        with (@inr error response
                (mkResponse 200
                   (JObj [("user", without_password alice);
                          ("token", JStr session0)]))) in Hlogin.
      injection Hlogin as Htoken. symmetry. exact Htoken. }
    exists token. split; [exact Hlogin|]. split; [|split; [|split]].
    + apply (Hlive 60000). reflexivity.
    + apply (Hlate 3601000). discriminate.
    + apply (Hflip 60000 1%nat 0%nat).
      * rewrite Htoken. apply Nat.ltb_lt. reflexivity.
      * apply Nat.ltb_lt. reflexivity.
    + apply (Hother 60000 "not.a.token").
      intros payload_id expiresIn clock0 H.
      destruct payload_id; cbn in H; discriminate.
Defined.


(** C2, as stated, fails: the token alice got at [e0], presented after its
    hour, and the same token with one bit flipped, presented within the
    hour, make [jwt.verify] throw [TokenExpiredError] and
    [JsonWebTokenError]; the middleware answers both with the same 401, so
    no answer of it tells "expired" from "invalid". *)
Lemma expired_and_invalid_get_the_same_401 :
  jwt_verify session0 JWT_SECRET 3601000 = inl TokenExpiredError
  /\ jwt_verify (flip_first_bit session0) JWT_SECRET 60000
     = inl JsonWebTokenError
  /\ ~ (exists Expired Invalid : response,
          Expired <> Invalid
          /\ authMiddleware 3601000 (Some ("Bearer " ++ session0))
             = inl Expired
          /\ authMiddleware 60000 (Some ("Bearer " ++ flip_first_bit session0))
             = inl Invalid).
Proof.
  split; [vm_compute; reflexivity|]. split; [vm_compute; reflexivity|].
  intros [Expired [Invalid [Hne [Hexp Hinv]]]].
  vm_compute in Hexp. vm_compute in Hinv.
  injection Hexp as <-. injection Hinv as <-.
  apply Hne. reflexivity.
Qed.


End Checks.

(* ================================================================= *)
(** * Further properties of the handlers *)

(** ** The handlers in closed form

    Each handler run, with the monad, the [try]/[catch] and the unique keys
    resolved: the response, the final table and the tables written. *)

Lemma select_by_email_inserted (clock : Z) (db : table)
    (email password : string) (flag : Z) :
  select_by_email email db = [] ->
  select_by_email email (db ++ [inserted_row clock db email password flag])%list
  = [inserted_row clock db email password flag].
Proof.
  intros H. unfold select_by_email in *. rewrite filter_app, H.
  cbn [filter inserted_row User.email]. rewrite String.eqb_refl. reflexivity.
Qed.

Lemma exec_insert_fresh (clock : Z) (db : table) (email password : string)
    (flag : Z) :
  select_by_email email db = [] ->
  exec_stmt clock (INSERT email password flag) db
  = inr (db ++ [inserted_row clock db email password flag])%list.
Proof.
  intros H. unfold exec_stmt, violates_unique.
  rewrite (filter_nil_existsb _ db H). reflexivity.
Qed.

Lemma exec_onboard_free (clock : Z) (db : table) (name username : string)
    (uid : Z) :
  select_by_username_excluding username uid db = [] ->
  exec_stmt clock (UPDATE (onboard_sets name username) uid) db
  = inr (update_rows (onboard_sets name username) uid db).
Proof.
  intros H. unfold exec_stmt, violates_unique. cbn [onboard_sets new_username fold_left].
  unfold select_by_username_excluding in H.
  rewrite (filter_nil_existsb _ db H), andb_false_r. reflexivity.
Qed.

Section ClosedForms.

Context {L : Libraries}.

Lemma register_run (e : env) (email password : option string) (db : table) :
  register e email password db
  = if falsy email || falsy password
    then mkRun (inr (message_response 400 "Email and password are required"))
           db []
    else
      match select_by_email (field_value email) db with
      | _ :: _ =>
          mkRun (inr (message_response 409 "User with this email already exists"))
            db []
      | [] =>
          let created :=
            inserted_row (now e) db (field_value email)
              (bcrypt_hash (field_value password) 10 (salt e)) 0 in
          mkRun (inr (mkResponse 201
                        (JObj [("message", JStr "User registered successfully");
                               ("user", without_password created)])))
            (db ++ [created])%list [(db ++ [created])%list]
      end.
Proof.
  unfold register. destruct (falsy email || falsy password); [reflexivity|].
  run_sql.
  destruct (select_by_email (field_value email) db) as [|u rest] eqn:Hsel.
  - cbn [List.length Z.of_nat Z.ltb Z.compare]. run_sql.
    rewrite (exec_insert_fresh _ _ _ _ _ Hsel).
    cbn [outcome final written].
    rewrite (select_by_email_inserted _ _ _ _ _ Hsel). reflexivity.
  - reflexivity.
Qed.

Lemma login_run (e : env) (email password : option string) (db : table) :
  login e email password db
  = mkRun
      (inr (if falsy email || falsy password
            then message_response 400 "Email and password are required"
            else
              match select_by_email (field_value email) db with
              | [] => invalid_credentials
              | user :: _ =>
                  if bcrypt_compare (field_value password) (User.password user)
                  then mkResponse 200
                         (JObj [("user", without_password user);
                                ("token",
                                 JStr (jwt_sign (User.id user) JWT_SECRET "1h"
                                         (now e)))])
                  else invalid_credentials
              end))
      db [].
Proof.
  unfold login. destruct (falsy email || falsy password); [reflexivity|].
  run_sql.
  destruct (select_by_email (field_value email) db) as [|user rest];
    [reflexivity|].
  destruct (bcrypt_compare (field_value password) (User.password user));
    reflexivity.
Qed.

Lemma change_password_run (e : env) (req_user : Claims.t)
    (oldPassword newPassword : option string) (db : table) :
  change_password e req_user oldPassword newPassword db
  = if falsy oldPassword || falsy newPassword
    then mkRun (inr (message_response 400 "Old and new passwords are required"))
           db []
    else
      match select_by_id (Claims.id req_user) db with
      | [] => mkRun (inr (message_response 404 "User not found")) db []
      | user :: _ =>
          if bcrypt_compare (field_value oldPassword) (User.password user)
          then
            let db' :=
              update_rows
                [SetPassword (bcrypt_hash (field_value newPassword) 10 (salt e))]
                (User.id user) db in
            mkRun (inr password_updated) db' [db']
          else mkRun (inr (message_response 401 "Incorrect old password")) db []
      end.
Proof.
  unfold change_password.
  destruct (falsy oldPassword || falsy newPassword); [reflexivity|].
  run_sql.
  destruct (select_by_id (Claims.id req_user) db) as [|user rest];
    [reflexivity|].
  destruct (bcrypt_compare (field_value oldPassword) (User.password user));
    [|reflexivity].
  cbn [negb]. run_sql. rewrite exec_update_no_username by reflexivity.
  reflexivity.
Qed.

Lemma forgot_password_run (e : env) (email : option string) (db : table) :
  forgot_password e email db
  = if falsy email
    then mkRun (inr (message_response 400 "Email is required")) db []
    else
      match select_by_email (field_value email) db with
      | [] => mkRun (inr forgot_password_sent) db []
      | user :: _ =>
          let db' :=
            update_rows (issue_sets (hashedResetToken_of e) (tokenExpiry_of e))
              (User.id user) db in
          mkRun (inr forgot_password_sent) db' [db']
      end.
Proof.
  unfold forgot_password. destruct (falsy email); [reflexivity|].
  run_sql.
  destruct (select_by_email (field_value email) db) as [|user rest];
    [reflexivity|].
  run_sql. rewrite exec_update_no_username by reflexivity. reflexivity.
Qed.

Lemma reset_password_run (e : env) (token newPassword : option string)
    (db : table) :
  reset_password e token newPassword db
  = if falsy token || falsy newPassword
    then mkRun (inr (message_response 400 "Token and new password are required"))
           db []
    else
      match select_by_reset_token (sha256_hex (field_value token)) (now e) db with
      | [] => mkRun (inr invalid_or_expired_token) db []
      | user :: _ =>
          let db' :=
            update_rows
              (redeem_sets (bcrypt_hash (field_value newPassword) 10 (salt e)))
              (User.id user) db in
          mkRun (inr password_reset_ok) db' [db']
      end.
Proof.
  unfold reset_password.
  destruct (falsy token || falsy newPassword); [reflexivity|].
  run_sql.
  destruct (select_by_reset_token _ (now e) db) as [|user rest];
    [reflexivity|].
  run_sql. rewrite exec_update_no_username by reflexivity. reflexivity.
Qed.

Lemma onboarding_run (e : env) (req_user : Claims.t)
    (name username : option string) (db : table) :
  onboarding e req_user name username db
  = if falsy name || falsy username
    then mkRun (inr (message_response 400 "Name and username are required"))
           db []
    else
      match select_by_username_excluding (field_value username)
              (Claims.id req_user) db with
      | _ :: _ => mkRun (inr username_taken) db []
      | [] =>
          let db' :=
            update_rows (onboard_sets (field_value name) (field_value username))
              (Claims.id req_user) db in
          mkRun (inr (message_response 200 "Onboarding completed successfully!"))
            db' [db']
      end.
Proof.
  unfold onboarding. destruct (falsy name || falsy username); [reflexivity|].
  run_sql.
  destruct (select_by_username_excluding (field_value username)
              (Claims.id req_user) db) as [|u rest] eqn:Hsel.
  - cbn [List.length Z.of_nat Z.ltb Z.compare]. run_sql.
    fold (onboard_sets (field_value name) (field_value username)).
    rewrite (exec_onboard_free _ _ _ _ _ Hsel). reflexivity.
  - reflexivity.
Qed.

End ClosedForms.

(* ================================================================= *)
(** ** What a request can write *)

Section Footprint.

Context {L : Libraries}.

Lemma app_footprint (e : env) (r : request) (db : table) :
  footprint (now e) db (final (app e r db))
  /\ ((written (app e r db) = [] /\ final (app e r db) = db)
      \/ written (app e r db) = [final (app e r db)]).
Proof.
  destruct r as [email password | email password
                 | authorization oldPassword newPassword | email
                 | token newPassword | authorization name username];
    cbn [app]; unfold protected.
  - rewrite register_run. destruct (falsy email || falsy password).
    + split; [constructor | left; split; reflexivity].
    + destruct (select_by_email (field_value email) db) eqn:Hsel.
      * cbn [final written]. split; [|right; reflexivity].
        apply touch_insert. exact Hsel.
      * split; [constructor | left; split; reflexivity].
  - rewrite login_run. split; [constructor | left; split; reflexivity].
  - destruct (authMiddleware (now e) authorization) as [denied|req_user].
    + split; [constructor | left; split; reflexivity].
    + rewrite change_password_run.
      destruct (falsy oldPassword || falsy newPassword);
        [split; [constructor | left; split; reflexivity]|].
      destruct (select_by_id (Claims.id req_user) db) as [|user rest];
        [split; [constructor | left; split; reflexivity]|].
      destruct (bcrypt_compare (field_value oldPassword) (User.password user));
        [|split; [constructor | left; split; reflexivity]].
      cbn [final written]. split; [apply touch_password | right; reflexivity].
  - rewrite forgot_password_run. destruct (falsy email);
      [split; [constructor | left; split; reflexivity]|].
    destruct (select_by_email (field_value email) db) as [|user rest];
      [split; [constructor | left; split; reflexivity]|].
    cbn [final written]. split; [apply touch_issue | right; reflexivity].
  - rewrite reset_password_run. destruct (falsy token || falsy newPassword);
      [split; [constructor | left; split; reflexivity]|].
    destruct (select_by_reset_token _ (now e) db) as [|user rest];
      [split; [constructor | left; split; reflexivity]|].
    cbn [final written]. split; [apply touch_redeem | right; reflexivity].
  - destruct (authMiddleware (now e) authorization) as [denied|req_user].
    + split; [constructor | left; split; reflexivity].
    + rewrite onboarding_run.
      destruct (falsy name || falsy username);
        [split; [constructor | left; split; reflexivity]|].
      destruct (select_by_username_excluding (field_value username)
                  (Claims.id req_user) db) eqn:Hsel;
        [|split; [constructor | left; split; reflexivity]].
      cbn [final written]. split; [|right; reflexivity].
      apply touch_onboard. exact Hsel.
Qed.

End Footprint.

(* ----------------------------------------------------------------- *)
(** ** The keys of the table *)

Lemma id_lt_auto_increment (db : table) (u : User.t) :
  In u db -> User.id u < auto_increment db.
Proof.
  unfold auto_increment. induction db as [|v db IH]; intros Hin; [destruct Hin|].
  cbn [fold_right]. destruct Hin as [<-|Hin]; [lia|].
  specialize (IH Hin). lia.
Qed.

Lemma auto_increment_fresh (db : table) :
  ~ In (auto_increment db) (map User.id db).
Proof.
  intros H. apply in_map_iff in H. destruct H as [u [Hid Hu]].
  apply id_lt_auto_increment in Hu. lia.
Qed.

Lemma select_by_email_nil_fresh (email : string) (db : table) :
  select_by_email email db = [] -> ~ In email (map User.email db).
Proof.
  intros Hsel H. apply in_map_iff in H. destruct H as [u [He Hu]].
  pose proof (proj1 (filter_nil_iff _ db) Hsel u Hu) as Hf. cbn in Hf.
  rewrite He, String.eqb_refl in Hf. discriminate.
Qed.

Lemma NoDup_snoc {A} (l : list A) (x : A) :
  NoDup l -> ~ In x l -> NoDup (l ++ [x]).
Proof.
  intros Hl Hx. apply NoDup_app.
  - exact Hl.
  - constructor; [intros [] | constructor].
  - intros a Ha [<-|[]]. contradiction.
Qed.

Lemma update_rows_ids (sets : list assignment) (uid : Z) (db : table) :
  map User.id (update_rows sets uid db) = map User.id db.
Proof.
  unfold update_rows. rewrite map_map. apply map_ext. intros u.
  destruct (User.id u =? uid); [apply assign_all_id | reflexivity].
Qed.

Lemma update_rows_emails (sets : list assignment) (uid : Z) (db : table) :
  map User.email (update_rows sets uid db) = map User.email db.
Proof.
  unfold update_rows. rewrite map_map. apply map_ext. intros u.
  destruct (User.id u =? uid); [apply assign_all_email | reflexivity].
Qed.

Lemma update_rows_usernames (sets : list assignment) (uid : Z) (db : table) :
  new_username sets = None ->
  (forall u, User.username (assign_all sets u) = User.username u) ->
  usernames (update_rows sets uid db) = usernames db.
Proof.
  intros _ Hsets. unfold usernames, update_rows.
  induction db as [|u db IH]; [reflexivity|].
  cbn [map flat_map]. rewrite IH.
  destruct (User.id u =? uid); [rewrite Hsets|]; reflexivity.
Qed.

(** Rows other than [uid]'s are left alone. *)
Lemma update_rows_absent (sets : list assignment) (uid : Z) (db : table) :
  ~ In uid (map User.id db) -> update_rows sets uid db = db.
Proof.
  unfold update_rows. induction db as [|u db IH]; intros H; [reflexivity|].
  cbn [map] in *. destruct (User.id u =? uid) eqn:E.
  - apply Z.eqb_eq in E. exfalso. apply H. left. exact E.
  - f_equal. apply IH. intros Hin. apply H. right. exact Hin.
Qed.

Lemma usernames_In (n : string) (db : table) :
  In n (usernames db) <-> exists u, In u db /\ User.username u = Some n.
Proof.
  unfold usernames. rewrite in_flat_map. split.
  - intros [u [Hu Hn]]. exists u. split; [exact Hu|].
    destruct (User.username u); [destruct Hn as [<-|[]]; reflexivity | destruct Hn].
  - intros [u [Hu Hn]]. exists u. split; [exact Hu|]. rewrite Hn. left. reflexivity.
Qed.

Lemma onboard_usernames_subset (name username : string) (uid : Z) (db : table)
    (m : string) :
  In m (usernames (update_rows (onboard_sets name username) uid db)) ->
  m = username \/ In m (usernames db).
Proof.
  intros H. apply usernames_In in H. destruct H as [w [Hw Hm]].
  apply in_update_rows in Hw. destruct Hw as [u [Hu ->]].
  destruct (User.id u =? uid).
  - cbn in Hm. left. congruence.
  - right. apply usernames_In. exists u. split; assumption.
Qed.

Lemma onboard_usernames_unique (name username : string) (uid : Z) (db : table) :
  NoDup (map User.id db) ->
  NoDup (usernames db) ->
  select_by_username_excluding username uid db = [] ->
  NoDup (usernames (update_rows (onboard_sets name username) uid db)).
Proof.
  intros Hids Hnames Hfree.
  assert (Hother : forall u, In u db -> User.username u = Some username ->
                             User.id u = uid).
  { intros u Hu Hn.
    pose proof (proj1 (filter_nil_iff _ db) Hfree u Hu) as Hf. cbn in Hf.
    rewrite Hn in Hf. cbn [opt_string_eqb] in Hf.
    rewrite String.eqb_refl in Hf. cbn [andb] in Hf.
    destruct (User.id u =? uid) eqn:E; [apply Z.eqb_eq; exact E | discriminate]. }
  clear Hfree. induction db as [|u db IH]; [constructor|].
  cbn [map] in Hids. apply NoDup_cons_iff in Hids. destruct Hids as [Hu Hids].
  change (usernames (u :: db))
    with (opt_list (User.username u) ++ usernames db)%list in Hnames.
  assert (Hrest : NoDup (usernames db)) by (apply NoDup_app_remove_l in Hnames; exact Hnames).
  assert (Hother' : forall v, In v db -> User.username v = Some username ->
                              User.id v = uid).
  { intros v Hv. apply Hother. right. exact Hv. }
  specialize (IH Hids Hrest Hother').
  change (update_rows (onboard_sets name username) uid (u :: db))
    with ((if User.id u =? uid
           then assign_all (onboard_sets name username) u else u)
          :: update_rows (onboard_sets name username) uid db).
  change (usernames (?x :: ?l)) with (opt_list (User.username x) ++ usernames l)%list.
  destruct (User.id u =? uid) eqn:E.
  - apply Z.eqb_eq in E. subst uid.
    rewrite (update_rows_absent _ _ db Hu) in *.
    cbn [assign_all onboard_sets fold_left assign User.username opt_list List.app].
    constructor; [|exact Hrest].
    intros Hin. apply usernames_In in Hin. destruct Hin as [v [Hv Hn]].
    apply Hu. apply in_map_iff. exists v. split; [|exact Hv].
    apply Hother'; assumption.
  - apply NoDup_app.
    + destruct (User.username u); [constructor; [intros [] | constructor] | constructor].
    + exact IH.
    + intros m Hm Hin.
      assert (Hum : User.username u = Some m).
      { destruct (User.username u); [destruct Hm as [<-|[]]; reflexivity | destruct Hm]. }
      apply onboard_usernames_subset in Hin. destruct Hin as [->|Hin].
      * apply Z.eqb_neq in E. apply E. apply Hother; [left; reflexivity | exact Hum].
      * rewrite Hum in Hnames. cbn [opt_list List.app] in Hnames.
        apply NoDup_cons_iff in Hnames. tauto.
Qed.

Lemma footprint_well_keyed (clock : Z) (db db' : table) :
  footprint clock db db' -> well_keyed db -> well_keyed db'.
Proof.
  intros Hstep [Hids [Hemails Hnames]].
  assert (Hsame : forall sets uid,
             new_username sets = None ->
             (forall u, User.username (assign_all sets u) = User.username u) ->
             well_keyed (update_rows sets uid db)).
  { intros sets uid Hnone Hsets. unfold well_keyed.
    rewrite update_rows_ids, update_rows_emails,
      (update_rows_usernames sets uid db Hnone Hsets).
    split; [exact Hids | split; [exact Hemails | exact Hnames]]. }
  destruct Hstep as [|email password Hfresh|h uid|fp uid|h uid|name username uid Hfree].
  - split; [exact Hids | split; [exact Hemails | exact Hnames]].
  - unfold well_keyed. rewrite !map_app.
    cbn [map inserted_row User.id User.email].
    split; [|split].
    + apply NoDup_snoc; [exact Hids | apply auto_increment_fresh].
    + apply NoDup_snoc;
        [exact Hemails | apply select_by_email_nil_fresh; exact Hfresh].
    + unfold usernames. rewrite flat_map_app. cbn. rewrite app_nil_r.
      exact Hnames.
  - apply Hsame; [reflexivity | intros u; reflexivity].
  - apply Hsame; [reflexivity | intros u; reflexivity].
  - apply Hsame; [reflexivity | intros u; reflexivity].
  - unfold well_keyed. rewrite update_rows_ids, update_rows_emails.
    split; [exact Hids | split; [exact Hemails|]].
    apply onboard_usernames_unique; assumption.
Qed.

Section Keys.

Context {L : Libraries}.

(** X1.  The server keeps the keys of the [users] table: if ids, emails and
    non-null usernames are pairwise distinct, they are so after any
    sequence of requests; in particular in every table reached from the
    empty one. *)
Theorem served_tables_well_keyed (reqs : list (env * request)) (db : table) :
  well_keyed db -> well_keyed (serve reqs db).
Proof.
  revert db. induction reqs as [|[e r] reqs IH]; intros db Hdb; [exact Hdb|].
  cbn [serve]. apply IH.
  apply (footprint_well_keyed (now e) db); [|exact Hdb].
  apply app_footprint.
Qed.

End Keys.

(* ----------------------------------------------------------------- *)
(** ** Rows are never removed, re-keyed or un-onboarded *)









Section Growth.

Context {L : Libraries}.


End Growth.

(* ================================================================= *)
(** ** Answers *)

(** The only response the middleware itself gives. *)
Lemma authMiddleware_denied {L : Libraries} (clock : Z)
    (authorization : option string) (denied : response) :
  authMiddleware clock authorization = inl denied -> denied = auth_failed.
Proof.
  unfold authMiddleware. destruct authorization as [header|].
  - destruct (jwt_verify _ JWT_SECRET clock); [|discriminate].
    intros H. injection H as <-. reflexivity.
  - intros H. injection H as <-. reflexivity.
Qed.

(** Open a request up into the closed form of its handler. *)
Ltac open_app :=
  cbn [app]; unfold protected;
  try match goal with
      | |- context [authMiddleware ?c ?a] =>
          let H := fresh "Hauth" in
          destruct (authMiddleware c a) eqn:H;
          [apply authMiddleware_denied in H; subst|]
      end;
  rewrite ?register_run, ?login_run, ?change_password_run,
    ?forgot_password_run, ?reset_password_run, ?onboarding_run.

Ltac handler_cases :=
  repeat match goal with
         | |- context [if ?c then _ else _] => destruct c eqn:?
         | |- context [match ?x with _ => _ end] => destruct x eqn:?
         end.

Lemma without_password_keys (u : User.t) :
  ~ In "password" (json_keys (without_password u)).
Proof.
  destruct u as [i em pw nm un ob im tok ex cr].
  destruct nm, un, im, tok, ex; cbn; intuition discriminate.
Qed.

Lemma json_keys_pair (k1 k2 key : string) (v1 v2 : json) :
  k1 <> key -> k2 <> key ->
  ~ In key (json_keys v1) -> ~ In key (json_keys v2) ->
  ~ In key (json_keys (JObj [(k1, v1); (k2, v2)])).
Proof.
  intros H1 H2 Hv1 Hv2. cbn. intros [H|H]; [contradiction|].
  apply in_app_or in H. destruct H as [H|[H|H]]; [contradiction|contradiction|].
  apply in_app_or in H. destruct H as [H|[]]. contradiction.
Qed.

Section Answers.

Context {L : Libraries}.

(** X4.  A request that is not answered 200 or 201 leaves the table as it
    was and writes nothing; and login writes nothing whatever it answers. *)
Theorem failed_requests_change_nothing (e : env) (r : request) (db : table) :
  (forall resp,
     outcome (app e r db) = inr resp ->
     status resp <> 200 -> status resp <> 201 ->
     final (app e r db) = db /\ written (app e r db) = [])
  /\ (forall email password,
        r = POST_login email password ->
        final (app e r db) = db /\ written (app e r db) = []).
Proof.
  split.
  - intros resp. destruct r; open_app; handler_cases;
      cbn [outcome final written ret]; intros Hresp H200 H201;
      try (split; reflexivity);
      injection Hresp as <-; cbn in H200, H201; congruence.
  - intros email password ->. open_app. split; reflexivity.
Qed.

(** X5.  No response carries a [password] key, at any depth: the stored
    hash is deleted from every row that is sent. *)
Theorem responses_have_no_password_key (e : env) (r : request) (db : table)
    (resp : response) :
  outcome (app e r db) = inr resp ->
  ~ In "password" (json_keys (body resp)).
Proof.
  destruct r; open_app; handler_cases; cbn [outcome ret];
    intros Hresp; injection Hresp as <-;
    try (apply json_keys_pair;
         first [discriminate | apply without_password_keys | intros []]);
    cbn; intuition congruence.
Qed.

End Answers.

(* ================================================================= *)
(** ** Forgot-password *)

Lemma update_reset_frame (fp : string) (expiry uid : Z) (db : table) :
  map besides_reset (update_rows (issue_sets fp expiry) uid db)
  = map besides_reset db.
Proof.
  unfold update_rows. rewrite map_map. apply map_ext. intros u.
  destruct (User.id u =? uid); reflexivity.
Qed.

(** With unique ids, an [UPDATE] by id leaves every row with another email
    than the selected one untouched. *)
Lemma update_rows_other_email (sets : list assignment) (db : table)
    (email : string) (user : User.t) (rest : list User.t) (u : User.t) :
  NoDup (map User.id db) ->
  select_by_email email db = user :: rest ->
  In u (update_rows sets (User.id user) db) ->
  User.email u <> email ->
  In u db.
Proof.
  intros Hids Hsel Hu Hemail.
  apply filter_head in Hsel. destruct Hsel as [Huser Heq].
  apply String.eqb_eq in Heq.
  apply in_update_rows in Hu. destruct Hu as [v [Hv ->]].
  destruct (User.id v =? User.id user) eqn:E; [|exact Hv].
  apply Z.eqb_eq in E. rewrite assign_all_email in Hemail.
  assert (v = user); [|congruence].
  clear Hemail Heq. induction db as [|w db IH]; [destruct Hv|].
  cbn [map] in Hids. apply NoDup_cons_iff in Hids. destruct Hids as [Hw Hids].
  destruct Hv as [->|Hv], Huser as [->|Huser].
  - reflexivity.
  - exfalso. apply Hw. rewrite E. apply in_map. exact Huser.
  - exfalso. apply Hw. rewrite <- E. apply in_map. exact Hv.
  - apply IH; assumption.
Qed.

Section ForgotPassword.

Context {L : Libraries}.

(** X6.  Forgot-password answers every request that names an email with the
    same 200 message, whether or not an account has that email and whatever
    the table holds. *)
Theorem forgot_password_answer_is_generic
    (e1 e2 : env) (email1 email2 : string) (db1 db2 : table) :
  email1 <> "" -> email2 <> "" ->
  outcome (app e1 (POST_forgot_password (Some email1)) db1)
  = outcome (app e2 (POST_forgot_password (Some email2)) db2)
  /\ outcome (app e1 (POST_forgot_password (Some email1)) db1)
     = inr forgot_password_sent.
Proof.
  intros H1 H2. cbn [app]. rewrite !forgot_password_run.
  rewrite (falsy_Some email1 H1), (falsy_Some email2 H2).
  cbn [field_value].
  destruct (select_by_email email1 db1), (select_by_email email2 db2);
    split; reflexivity.
Qed.

(** X7.  Forgot-password changes nothing but reset columns: every row
    keeps all its other columns, and, ids being unique, the rows of accounts
    with another email than the requested one are not touched at all. *)
Theorem forgot_password_touches_reset_columns_only
    (e : env) (email : option string) (db : table) :
  map besides_reset (final (forgot_password e email db)) = map besides_reset db
  /\ (NoDup (map User.id db) ->
      forall u, In u (final (forgot_password e email db)) ->
                User.email u <> field_value email ->
                In u db).
Proof.
  rewrite forgot_password_run. destruct (falsy email).
  - split; [reflexivity | intros _ u Hu _; exact Hu].
  - destruct (select_by_email (field_value email) db) as [|user rest] eqn:Hsel.
    + split; [reflexivity | intros _ u Hu _; exact Hu].
    + cbn [final]. split; [apply update_reset_frame|].
      intros Hids u Hu Hemail.
      eapply update_rows_other_email; eassumption.
Qed.

End ForgotPassword.

(* ================================================================= *)
(** ** Register, then log in *)

Section RegisterLogin.

Context {L : Libraries}.

(** X8.  Registering an email that no account has creates the account with
    the next id, the bcrypt hash of the password and [onboarded = 0], and
    answers 201.  If [bcrypt.compare] accepts the password against that
    hash, a login with the same email and password on the resulting table is
    answered 200 with that account, less its password, and a session token
    signed for its id. *)
Theorem register_then_login
    (e e' : env) (email password : string) (db : table) :
  email <> "" -> password <> "" ->
  select_by_email email db = [] ->
  bcrypt_compare password (bcrypt_hash password 10 (salt e)) = true ->
  let created :=
    inserted_row (now e) db email (bcrypt_hash password 10 (salt e)) 0 in
  let registered := register e (Some email) (Some password) db in
  outcome registered
  = inr (mkResponse 201
           (JObj [("message", JStr "User registered successfully");
                  ("user", without_password created)]))
  /\ final registered = (db ++ [created])%list
  /\ login e' (Some email) (Some password) (final registered)
     = mkRun
         (inr (mkResponse 200
                 (JObj [("user", without_password created);
                        ("token",
                         JStr (jwt_sign (auto_increment db) JWT_SECRET "1h"
                                 (now e')))])))
         (final registered) [].
Proof.
  intros He Hp Hfresh Hcmp created registered. subst registered.
  rewrite register_run, (falsy_Some email He), (falsy_Some password Hp).
  cbn [orb field_value]. rewrite Hfresh. cbn [outcome final]. fold created.
  split; [reflexivity|]. split; [reflexivity|].
  rewrite login_run, (falsy_Some email He), (falsy_Some password Hp).
  cbn [orb field_value]. subst created.
  rewrite (select_by_email_inserted _ _ _ _ _ Hfresh).
  cbn [inserted_row User.password User.id]. rewrite Hcmp. reflexivity.
Qed.


End RegisterLogin.

(* ================================================================= *)
(** ** A new password logs in *)

Section NewPassword.

Context {L : Libraries}.

(** Login against a table in which the account's rows were just updated. *)
Lemma login_after_update (e : env) (email password : string)
    (sets : list assignment) (db : table)
    (account : User.t) (others : list User.t) :
  email <> "" -> password <> "" ->
  select_by_email email db = account :: others ->
  login e (Some email) (Some password) (update_rows sets (User.id account) db)
  = mkRun
      (inr (if bcrypt_compare password (User.password (assign_all sets account))
            then mkResponse 200
                   (JObj [("user", without_password (assign_all sets account));
                          ("token",
                           JStr (jwt_sign (User.id account) JWT_SECRET "1h"
                                   (now e)))])
            else invalid_credentials))
      (update_rows sets (User.id account) db) [].
Proof.
  intros He Hp Hsel.
  rewrite login_run, (falsy_Some email He), (falsy_Some password Hp).
  cbn [orb field_value]. rewrite select_by_email_update, Hsel.
  unfold update_rows at 1. cbn [map]. rewrite Z.eqb_refl, assign_all_id.
  reflexivity.
Qed.

(** X10.  After a successful change-password by an account, a login with
    its email and the new password is answered 200 with a session token for
    the account, provided [bcrypt.compare] accepts the new password against
    its hash; and a login with any password that [bcrypt.compare] rejects
    against the new hash, the old one for instance, is answered 401. *)
Theorem change_password_then_login
    (e e' : env) (req_user : Claims.t) (oldPassword : option string)
    (newPassword email : string) (db : table)
    (account : User.t) (others : list User.t) :
  email <> "" ->
  select_by_email email db = account :: others ->
  User.id account = Claims.id req_user ->
  let h := bcrypt_hash newPassword 10 (salt e) in
  let changed := change_password e req_user oldPassword (Some newPassword) db in
  outcome changed = inr password_updated ->
  bcrypt_compare newPassword h = true ->
  newPassword <> ""
  /\ outcome (login e' (Some email) (Some newPassword) (final changed))
     = inr (mkResponse 200
              (JObj [("user", without_password (assign (SetPassword h) account));
                     ("token",
                      JStr (jwt_sign (User.id account) JWT_SECRET "1h" (now e')))]))
  /\ (forall p, p <> "" ->
                bcrypt_compare p h = false ->
                outcome (login e' (Some email) (Some p) (final changed))
                = inr invalid_credentials).
Proof.
  intros He Hsel Hid h changed Hok Hcmp. subst changed.
  assert (Hp : newPassword <> "").
  { intros ->. rewrite change_password_run in Hok.
    replace (falsy oldPassword || falsy (Some "")) with true in Hok
      by (symmetry; apply orb_true_r).
    discriminate. }
  split; [exact Hp|].
  destruct (change_password_success e req_user oldPassword (Some newPassword)
              db Hok) as [user [rest [Huser [_ Hrun]]]].
  rewrite Hrun. cbn [final field_value]. clear Hrun Hok.
  apply filter_head in Huser. destruct Huser as [_ Huid].
  apply Z.eqb_eq in Huid. rewrite Huid, <- Hid. fold h. split.
  - rewrite (login_after_update e' email newPassword _ db account others He Hp Hsel).
    cbn [outcome assign_all fold_left assign User.password]. rewrite Hcmp.
    reflexivity.
  - intros p Hpne Hrej.
    rewrite (login_after_update e' email p _ db account others He Hpne Hsel).
    cbn [outcome assign_all fold_left assign User.password]. rewrite Hrej.
    reflexivity.
Qed.

(** The table after a reset token was issued and redeemed in time. *)
Lemma issued_then_redeemed (db : table) (e0 e1 : env) (email newPassword : string)
    (account : User.t) (others : list User.t) :
  email <> "" -> newPassword <> "" ->
  List.length (randomBytes e0) = 32%nat ->
  select_by_email email db = account :: others ->
  fingerprint_unused (hashedResetToken_of e0) db ->
  now e1 < now e0 + 3600000 ->
  reset_password e1 (Some (resetToken_of e0)) (Some newPassword)
    (final (forgot_password e0 (Some email) db))
  = let db' :=
      update_rows (redeem_sets (bcrypt_hash newPassword 10 (salt e1)))
        (User.id account)
        (update_rows (issue_sets (hashedResetToken_of e0) (tokenExpiry_of e0))
           (User.id account) db) in
    mkRun (inr password_reset_ok) db' [db'].
Proof.
  intros He Hp Hlen Hsel Hfresh Hlive.
  assert (Hsecret : resetToken_of e0 <> "").
  { apply toString_hex_nonempty. intros E. rewrite E in Hlen. discriminate. }
  assert (Hin : In account db) by (apply filter_head in Hsel; tauto).
  rewrite (forgot_password_hit e0 email db account others He Hsel).
  cbn [final].
  destruct (select_by_id_nonempty account db Hin) as [v [rest [Hv Hvid]]].
  rewrite (reset_password_hit e1 (resetToken_of e0) newPassword _
             (assign_all (issue_sets (hashedResetToken_of e0) (tokenExpiry_of e0)) v)
             (map (assign_all (issue_sets (hashedResetToken_of e0)
                                 (tokenExpiry_of e0))) rest)
             Hsecret Hp).
  - rewrite assign_all_id, Hvid. reflexivity.
  - change (sha256_hex (resetToken_of e0)) with (hashedResetToken_of e0).
    rewrite select_issued_live by assumption. rewrite Hv. reflexivity.
Qed.

(** X11.  After a reset token was issued for an account and redeemed in
    time, a login with the account's email and the new password is answered
    200 with the account, its reset columns cleared, and a session token for
    it, provided [bcrypt.compare] accepts the new password against its hash;
    a login with any password that [bcrypt.compare] rejects against it is
    answered 401. *)
Theorem reset_password_then_login
    (db : table) (e0 e1 e2 : env) (email newPassword : string)
    (account : User.t) (others : list User.t) :
  email <> "" -> newPassword <> "" ->
  List.length (randomBytes e0) = 32%nat ->
  select_by_email email db = account :: others ->
  fingerprint_unused (hashedResetToken_of e0) db ->
  now e1 < now e0 + 3600000 ->
  let h := bcrypt_hash newPassword 10 (salt e1) in
  bcrypt_compare newPassword h = true ->
  let redeemed :=
    reset_password e1 (Some (resetToken_of e0)) (Some newPassword)
      (final (forgot_password e0 (Some email) db)) in
  outcome (login e2 (Some email) (Some newPassword) (final redeemed))
  = inr (mkResponse 200
           (JObj [("user", without_password (assign_all (redeem_sets h) account));
                  ("token",
                   JStr (jwt_sign (User.id account) JWT_SECRET "1h" (now e2)))]))
  /\ (forall p, p <> "" ->
                bcrypt_compare p h = false ->
                outcome (login e2 (Some email) (Some p) (final redeemed))
                = inr invalid_credentials).
Proof.
  intros He Hp Hlen Hsel Hfresh Hlive h Hcmp redeemed. subst redeemed.
  rewrite (issued_then_redeemed db e0 e1 email newPassword account others
             He Hp Hlen Hsel Hfresh Hlive).
  cbn [final].
  set (sets := issue_sets (hashedResetToken_of e0) (tokenExpiry_of e0)).
  assert (Hsel' : select_by_email email (update_rows sets (User.id account) db)
                  = assign_all sets account
                    :: update_rows sets (User.id account) others).
  { rewrite select_by_email_update, Hsel. unfold update_rows. cbn [map].
    rewrite Z.eqb_refl. reflexivity. }
  assert (Hid' : User.id (assign_all sets account) = User.id account)
    by apply assign_all_id.
  rewrite <- Hid'. split.
  - rewrite (login_after_update e2 email newPassword _ _ _ _ He Hp Hsel').
    cbn [outcome]. change (User.password (assign_all (redeem_sets _) _)) with h.
    rewrite Hcmp. reflexivity.
  - intros p Hpne Hrej.
    rewrite (login_after_update e2 email p _ _ _ _ He Hpne Hsel').
    cbn [outcome]. change (User.password (assign_all (redeem_sets _) _)) with h.
    rewrite Hrej. reflexivity.
Qed.

End NewPassword.

(* ================================================================= *)
(** ** Protected routes *)

Section Protected.

Context {L : Libraries}.


End Protected.

(* ================================================================= *)
(** ** Onboarding *)

Lemma onboarded_rows (name username : string) (uid : Z) (db : table)
    (u : User.t) :
  In u (update_rows (onboard_sets name username) uid db) ->
  User.id u = uid ->
  User.name u = Some name
  /\ User.username u = Some username
  /\ User.onboarded u = 1.
Proof.
  intros Hu Hid. apply in_update_rows in Hu. destruct Hu as [v [_ ->]].
  destruct (User.id v =? uid) eqn:E.
  - repeat split.
  - apply Z.eqb_neq in E. contradiction.
Qed.

Section Onboarding.

Context {L : Libraries}.

(** X13.  Onboarding with a name and a username that no account with
    another id holds is answered 200; the caller's row then has that name,
    that username and [onboarded = 1], and every other row is as before.
    The caller's own current username does not count as taken, so
    submitting it again succeeds. *)
Theorem onboarding_completes_profile
    (e : env) (req_user : Claims.t) (name username : string) (db : table) :
  name <> "" -> username <> "" ->
  (forall u, In u db -> User.username u = Some username ->
             User.id u = Claims.id req_user) ->
  let done := onboarding e req_user (Some name) (Some username) db in
  outcome done = inr (message_response 200 "Onboarding completed successfully!")
  /\ (forall u, In u (final done) ->
                User.id u = Claims.id req_user ->
                User.name u = Some name
                /\ User.username u = Some username
                /\ User.onboarded u = 1)
  /\ (forall u, In u (final done) ->
                User.id u <> Claims.id req_user -> In u db).
Proof.
  intros Hn Hu Hfree done. subst done.
  rewrite onboarding_run, (falsy_Some name Hn), (falsy_Some username Hu).
  cbn [orb field_value].
  assert (Hsel : select_by_username_excluding username (Claims.id req_user) db
                 = []).
  { apply filter_nil_iff. intros u Hin. cbn.
    destruct (opt_string_eqb (User.username u) username) eqn:E; [|reflexivity].
    apply opt_string_eqb_true in E. rewrite (Hfree u Hin E), Z.eqb_refl.
    reflexivity. }
  rewrite Hsel. cbn [outcome final]. split; [reflexivity|]. split.
  - intros u Hin Hid. apply (onboarded_rows name username _ db u Hin Hid).
  - intros u Hin Hne. apply (update_rows_elsewhere _ _ _ u Hin Hne).
Qed.

(** X14.  A username is claimed once: after an account completed onboarding
    with a username, an onboarding request by a caller with another id for
    the same username is answered 409 "Username is already taken. Please
    choose another." and changes nothing. *)
Theorem username_is_claimed_once
    (e e' : env) (first second : Claims.t) (name name' username : string)
    (db : table) (account : User.t) :
  name <> "" -> name' <> "" -> username <> "" ->
  In account db ->
  User.id account = Claims.id first ->
  Claims.id second <> Claims.id first ->
  let done := onboarding e first (Some name) (Some username) db in
  outcome done = inr (message_response 200 "Onboarding completed successfully!") ->
  onboarding e' second (Some name') (Some username) (final done)
  = mkRun (inr username_taken) (final done) [].
Proof.
  intros Hn Hn' Hu Hin Hid Hne done Hok.
  assert (Hdone : final done
                  = update_rows (onboard_sets name username) (Claims.id first) db).
  { subst done. revert Hok.
    rewrite onboarding_run, (falsy_Some name Hn), (falsy_Some username Hu).
    cbn [orb field_value].
    destruct (select_by_username_excluding username (Claims.id first) db);
      [reflexivity | discriminate]. }
  rewrite Hdone. clear Hdone Hok done.
  rewrite onboarding_run, (falsy_Some name' Hn'), (falsy_Some username Hu).
  cbn [orb field_value].
  destruct (select_by_username_excluding username (Claims.id second)
              (update_rows (onboard_sets name username) (Claims.id first) db))
    as [|hit more] eqn:Hsel; [|reflexivity].
  exfalso.
  assert (Hrow : In (assign_all (onboard_sets name username) account)
                   (update_rows (onboard_sets name username) (Claims.id first) db)).
  { unfold update_rows. apply in_map_iff. exists account.
    rewrite Hid, Z.eqb_refl. split; [reflexivity | exact Hin]. }
  pose proof (proj1 (filter_nil_iff _ _) Hsel _ Hrow) as Hf.
  cbn in Hf. rewrite String.eqb_refl, Hid in Hf.
  apply Z.eqb_neq in Hne. rewrite Z.eqb_sym, Hne in Hf. discriminate.
Qed.

End Onboarding.

(* ================================================================= *)
(** ** The [Authorization] header *)

Lemma prefix_Bearer_has_space (s : string) :
  String.prefix "Bearer " s = true -> no_space s = false.
Proof.
  do 7 (destruct s as [|? s]; [discriminate|];
        cbn [String.prefix];
        match goal with
        | |- context [ascii_dec ?a ?b] =>
            destruct (ascii_dec a b) as [<-|_]; [|discriminate]
        end).
  intros _. reflexivity.
Qed.

Lemma replace_Bearer_absent (s : string) :
  no_space s = true -> replace "Bearer " "" s = s.
Proof.
  induction s as [|c s IH]; intros H; [reflexivity|].
  cbn [replace].
  destruct (String.prefix "Bearer " (String c s)) eqn:E.
  - apply prefix_Bearer_has_space in E. congruence.
  - f_equal. apply IH. cbn [no_space] in H.
    apply andb_true_iff in H. tauto.
Qed.

Section Header.

Context {L : Libraries}.

(** X15.  The middleware does not insist on the [Bearer ] scheme: a header
    that consists of the bare token (which has no blank in it) is treated
    exactly as the header [Bearer <token>]. *)
Theorem authMiddleware_accepts_bare_token (clock : Z) (token : string) :
  no_space token = true ->
  authMiddleware clock (Some token)
  = authMiddleware clock (Some ("Bearer " ++ token)).
Proof.
  intros H. unfold authMiddleware.
  rewrite replace_Bearer, (replace_Bearer_absent token H). reflexivity.
Qed.

(** X16.  A request that gets past the middleware (if its route has one)
    and lacks a required body field, or has it empty, is answered 400 with a
    message and changes nothing: validation comes before any lookup. *)
Theorem missing_field_is_rejected (e : env) (r : request) (db : table) :
  existsb falsy (required_fields r) = true ->
  admitted e r ->
  exists msg, app e r db = mkRun (inr (message_response 400 msg)) db [].
Proof.
  intros Hmissing Hadmitted.
  destruct r as [email password | email password
                 | authorization oldPassword newPassword | email
                 | token newPassword | authorization name username];
    cbn [required_fields existsb] in Hmissing;
    rewrite ?orb_false_r in Hmissing;
    cbn [app admitted] in *; unfold protected;
    try match type of Hadmitted with
        | exists _, _ => destruct Hadmitted as [req_user ->]
        end;
    rewrite ?register_run, ?login_run, ?change_password_run,
      ?forgot_password_run, ?reset_password_run, ?onboarding_run;
    rewrite Hmissing; eexists; reflexivity.
Qed.

End Header.

(* ================================================================= *)
(** ** From login to a protected route *)

Lemma select_by_id_unique (db : table) (account : User.t) :
  NoDup (map User.id db) ->
  In account db ->
  select_by_id (User.id account) db = [account].
Proof.
  unfold select_by_id. induction db as [|u db IH]; intros Hids Hin; [destruct Hin|].
  cbn [map] in Hids. apply NoDup_cons_iff in Hids. destruct Hids as [Hu Hids].
  cbn [filter]. destruct Hin as [->|Hin].
  - rewrite Z.eqb_refl. f_equal. apply filter_nil_iff. intros v Hv.
    apply Z.eqb_neq. intros E. apply Hu. rewrite <- E. apply in_map. exact Hv.
  - replace (User.id u =? User.id account) with false; [apply IH; assumption|].
    symmetry. apply Z.eqb_neq. intros E. apply Hu. rewrite E.
    apply in_map. exact Hin.
Qed.

Section SessionLifecycle.

Context {L : Libraries}.

(** X17.  The token a successful login returns authorises its account at
    the protected routes for an hour: sent as [Bearer <token>] with the
    current and a new password, change-password sets the password of that
    very account while fewer than 3600 seconds have passed since the login,
    and is answered 401 "Authentication failed.", changing nothing, from
    then on. *)
Theorem login_token_authorises_change_password
    (db : table) (e e' : env) (email password newPassword : string)
    (account : User.t) (others : list User.t) :
  jwt_contract L ->
  NoDup (map User.id db) ->
  email <> "" -> password <> "" -> newPassword <> "" ->
  select_by_email email db = account :: others ->
  bcrypt_compare password (User.password account) = true ->
  let token := token_of (login e (Some email) (Some password) db) in
  let request :=
    PUT_profile_password (Some ("Bearer " ++ token)) (Some password)
      (Some newPassword) in
  (now e' / 1000 < now e / 1000 + 3600 ->
   app e' request db
   = let db' :=
       update_rows [SetPassword (bcrypt_hash newPassword 10 (salt e'))]
         (User.id account) db in
     mkRun (inr password_updated) db' [db'])
  /\ (now e / 1000 + 3600 <= now e' / 1000 ->
      app e' request db = mkRun (inr auth_failed) db []).
Proof.
  intros Hjwt Hids He Hp Hnp Hsel Hcmp token request.
  assert (Htoken : token = jwt_sign (User.id account) JWT_SECRET "1h" (now e)).
  { subst token. rewrite login_run, (falsy_Some email He), (falsy_Some password Hp).
    cbn [orb field_value]. rewrite Hsel, Hcmp. reflexivity. }
  assert (Hin : In account db) by (apply filter_head in Hsel; tauto).
  subst request. cbn [app]. unfold protected, authMiddleware.
  rewrite replace_Bearer, Htoken, Hjwt. split.
  - intros Hlive. apply Z.ltb_lt in Hlive. rewrite Hlive.
    rewrite change_password_run, (falsy_Some password Hp),
      (falsy_Some newPassword Hnp).
    cbn [orb field_value Claims.id].
    rewrite (select_by_id_unique db account Hids Hin), Hcmp. reflexivity.
  - intros Hlate. apply Z.ltb_ge in Hlate. rewrite Hlate. reflexivity.
Qed.

End SessionLifecycle.

(* ================================================================= *)
(** ** Onboarding, then log in *)

Section OnboardLogin.

Context {L : Libraries}.

(** X18.  After an account completed onboarding, a login of that account
    is answered 200 with a [user] object that reports [onboarded: 1] and
    the name and username just set, and has no [password]. *)
Theorem onboarding_then_login
    (e e' : env) (req_user : Claims.t) (name username email password : string)
    (db : table) (account : User.t) (others : list User.t) :
  email <> "" -> password <> "" ->
  select_by_email email db = account :: others ->
  User.id account = Claims.id req_user ->
  bcrypt_compare password (User.password account) = true ->
  let done := onboarding e req_user (Some name) (Some username) db in
  outcome done = inr (message_response 200 "Onboarding completed successfully!") ->
  exists user token,
    outcome (login e' (Some email) (Some password) (final done))
    = inr (mkResponse 200 (JObj [("user", JObj user); ("token", JStr token)]))
    /\ get_key "onboarded" user = Some (JNum 1)
    /\ get_key "name" user = Some (JStr name)
    /\ get_key "username" user = Some (JStr username)
    /\ get_key "password" user = None.
Proof.
  intros He Hp Hsel Hid Hcmp done Hok.
  assert (Hdone : final done
                  = update_rows (onboard_sets name username) (User.id account) db).
  { subst done. revert Hok. rewrite onboarding_run, Hid.
    destruct (falsy (Some name) || falsy (Some username)); [discriminate|].
    cbn [field_value].
    destruct (select_by_username_excluding username (Claims.id req_user) db);
      [reflexivity | discriminate]. }
  rewrite Hdone.
  rewrite (login_after_update e' email password _ db account others He Hp Hsel).
  cbn [outcome]. change (User.password (assign_all (onboard_sets _ _) _))
    with (User.password account).
  rewrite Hcmp. eexists. eexists. split; [reflexivity|].
  repeat split.
Qed.

End OnboardLogin.

(* ================================================================= *)
(** ** The further theorems on concrete runs *)

Section MoreChecks.

Import Run Run2.
#[local] Existing Instance Toy.libraries.

Lemma db_well_keyed : well_keyed db.
Proof.
  unfold well_keyed. cbn. repeat split;
    repeat (constructor; [cbn; intuition discriminate|]); constructor.
Defined.

Lemma served_tables_well_keyed_witness :
  well_keyed
    (serve [(e0, POST_register (Some "c@x.com") (Some "pw3"));
            (e1, PUT_onboarding (Some ("Bearer " ++ session0)) (Some "Alice")
                   (Some "alice"))] db).
Proof.
  apply served_tables_well_keyed. exact db_well_keyed.
Defined.

Lemma failed_requests_change_nothing_witness :
  final (app e1 (POST_login (Some "a@x.com") (Some "wrong")) db) = db.
Proof.
  destruct (failed_requests_change_nothing e1
              (POST_login (Some "a@x.com") (Some "wrong")) db) as [H _].
  destruct (H invalid_credentials) as [Hfinal _].
  - reflexivity.
  - discriminate.
  - discriminate.
  - exact Hfinal.
Defined.

Lemma responses_have_no_password_key_witness :
  ~ In "password"
      (json_keys
         (body (mkResponse 200
                  (JObj [("user", without_password alice);
                         ("token", JStr session0)])))).
Proof.
  apply (responses_have_no_password_key e0
           (POST_login (Some "a@x.com") (Some "pw1")) db).
  reflexivity.
Defined.

Lemma forgot_password_answer_is_generic_witness :
  outcome (app e0 (POST_forgot_password (Some "a@x.com")) db)
  = outcome (app e1 (POST_forgot_password (Some "nobody@x.com")) db).
Proof.
  destruct (forgot_password_answer_is_generic e0 e1 "a@x.com" "nobody@x.com"
              db db) as [H _].
  - discriminate.
  - discriminate.
  - exact H.
Defined.

Lemma forgot_password_touches_reset_columns_only_witness :
  map besides_reset (final (forgot_password e0 (Some "a@x.com") db))
  = map besides_reset db
  /\ In bob db.
Proof.
  destruct (forgot_password_touches_reset_columns_only e0 (Some "a@x.com") db)
    as [Hframe Hothers].
  split; [exact Hframe|]. apply Hothers.
  - exact (proj1 db_well_keyed).
  - right. left. reflexivity.
  - discriminate.
Defined.

Lemma register_then_login_witness :
  outcome
    (login e1 (Some "c@x.com") (Some "pw3")
       (final (register e0 (Some "c@x.com") (Some "pw3") db)))
  = inr (mkResponse 200
           (JObj [("user",
                   without_password
                     (inserted_row 1000 db "c@x.com" (Toy.hash "pw3" 10 "s0") 0));
                  ("token", JStr (Toy.sign 3 "s3cr3t" "1h" 60000))])).
Proof.
  pose proof (register_then_login e0 e1 "c@x.com" "pw3" db) as H.
  destruct H as [_ [_ H]].
  - discriminate.
  - discriminate.
  - reflexivity.
  - reflexivity.
  - rewrite H. reflexivity.
Defined.


Lemma change_password_then_login_witness :
  outcome
    (login e2 (Some "a@x.com") (Some "pw1")
       (final (change_password e1 alice_claims (Some "pw1") (Some "pw9") db)))
  = inr invalid_credentials.
Proof.
  pose proof (change_password_then_login e1 e2 alice_claims (Some "pw1") "pw9"
                "a@x.com" db alice [] ltac:(discriminate) eq_refl eq_refl
                eq_refl eq_refl) as H.
  destruct H as [_ [_ H]]. apply H.
  - discriminate.
  - reflexivity.
Defined.

Lemma reset_password_then_login_witness :
  outcome
    (login e2 (Some "a@x.com") (Some "pw1")
       (final (reset_password e1 (Some secret0) (Some "pw2")
                 (final (forgot_password e0 (Some "a@x.com") db)))))
  = inr invalid_credentials.
Proof.
  assert (Hfresh : fingerprint_unused (hashedResetToken_of e0) db).
  { intros u [<-|[<-|[]]]; discriminate. }
  pose proof (reset_password_then_login db e0 e1 e2 "a@x.com" "pw2" alice []
                ltac:(discriminate) ltac:(discriminate) eq_refl eq_refl
                Hfresh eq_refl eq_refl) as H.
  destruct H as [_ H]. apply H.
  - discriminate.
  - reflexivity.
Defined.


Lemma onboarding_completes_profile_witness :
  outcome (onboarding e1 alice_claims (Some "Alice") (Some "alice") db)
  = inr (message_response 200 "Onboarding completed successfully!").
Proof.
  destruct (onboarding_completes_profile e1 alice_claims "Alice" "alice" db)
    as [H _].
  - discriminate.
  - discriminate.
  - intros u [<-|[<-|[]]]; discriminate.
  - exact H.
Defined.

Lemma username_is_claimed_once_witness :
  outcome
    (onboarding e2 bob_claims (Some "Robert") (Some "alice")
       (final (onboarding e1 alice_claims (Some "Alice") (Some "alice") db)))
  = inr username_taken.
Proof.
  rewrite (username_is_claimed_once e1 e2 alice_claims bob_claims "Alice"
             "Robert" "alice" db alice).
  - reflexivity.
  - discriminate.
  - discriminate.
  - discriminate.
  - left. reflexivity.
  - reflexivity.
  - discriminate.
  - reflexivity.
Defined.

Lemma authMiddleware_accepts_bare_token_witness :
  authMiddleware 60000 (Some session0) = inr alice_claims.
Proof.
  rewrite (authMiddleware_accepts_bare_token 60000 session0).
  - reflexivity.
  - reflexivity.
Defined.

Lemma missing_field_is_rejected_witness :
  exists msg,
    app e1 (PUT_onboarding (Some ("Bearer " ++ session0)) (Some "Alice") None) db
    = mkRun (inr (message_response 400 msg)) db [].
Proof.
  apply missing_field_is_rejected.
  - reflexivity.
  - exists alice_claims. reflexivity.
Defined.

Lemma onboarding_then_login_witness :
  exists user token,
    outcome
      (login e2 (Some "a@x.com") (Some "pw1")
         (final (onboarding e1 alice_claims (Some "Alice") (Some "alice") db)))
    = inr (mkResponse 200 (JObj [("user", JObj user); ("token", JStr token)]))
    /\ get_key "onboarded" user = Some (JNum 1).
Proof.
  pose proof (onboarding_then_login e1 e2 alice_claims "Alice" "alice"
                "a@x.com" "pw1" db alice [] ltac:(discriminate)
                ltac:(discriminate) eq_refl eq_refl eq_refl eq_refl) as H.
  destruct H as [user [token [Hlogin [Honboarded _]]]].
  exists user, token. split; [exact Hlogin | exact Honboarded].
Defined.

Lemma login_token_authorises_change_password_witness :
  outcome
    (app e1 (PUT_profile_password (Some ("Bearer " ++ session0)) (Some "pw1")
               (Some "pw9")) db)
  = inr password_updated
  /\ outcome
       (app e2 (PUT_profile_password (Some ("Bearer " ++ session0)) (Some "pw1")
                  (Some "pw9")) db)
     = inr auth_failed.
Proof.
  pose proof (login_token_authorises_change_password db e0 e1 "a@x.com" "pw1"
                "pw9" alice [] toy_jwt_contract (proj1 db_well_keyed)
                ltac:(discriminate) ltac:(discriminate) ltac:(discriminate)
                eq_refl eq_refl) as H1.
  pose proof (login_token_authorises_change_password db e0 e2 "a@x.com" "pw1"
                "pw9" alice [] toy_jwt_contract (proj1 db_well_keyed)
                ltac:(discriminate) ltac:(discriminate) ltac:(discriminate)
                eq_refl eq_refl) as H2.
  cbv zeta in H1, H2. destruct H1 as [H1 _]. destruct H2 as [_ H2]. split.
  - change (token_of (login e0 (Some "a@x.com") (Some "pw1") db))
      with session0 in H1.
    rewrite H1; reflexivity.
  - change (token_of (login e0 (Some "a@x.com") (Some "pw1") db))
      with session0 in H2.
    rewrite H2; [reflexivity | discriminate].
Defined.

End MoreChecks.
